(** * fastify-session: the session hooks and the cookie secrets store

    A shallow embedding of [lib/fastifySession.js] (the [preValidation]
    and [onSend] hooks, [destroySession], [shouldSaveSession]) and of
    the [CookieSecretsStore] class, with the properties of the session
    negotiation protocol stated over them.

    JavaScript values are a small inductive type; a JavaScript object
    used as a record of named properties is a [gmap string jsval]; the
    calls a handler makes to its collaborators (the signature library,
    the session store, the reply) are recorded in order in a trace. *)

From Stdlib Require Import ZArith String List.
From stdpp Require Import base gmap strings list.

Local Open Scope string_scope.
Local Open Scope list_scope.
Local Open Scope Z_scope.

(** ** JavaScript values *)

(** The values the handlers inspect. An object is known by its
    reference only: [===] on objects compares references. Numbers are
    integers, so there is no [NaN] and [===] is equality. *)
Inductive jsval : Type :=
  | JUndefined
  | JNull
  | JBool (b : bool)
  | JNum (n : Z)
  | JStr (s : string)
  | JObj (ref : positive).

#[global] Instance jsval_eq_dec : EqDecision jsval.
Proof. solve_decision. Defined.

(** [ToBoolean]: what [if (v)] and [!v] test. *)
Definition truthy (v : jsval) : bool :=
  match v with
  | JUndefined | JNull => false
  | JBool b => b
  | JNum n => negb (n =? 0)
  | JStr s => negb (String.eqb s "")
  | JObj _ => true
  end.

(** [v === true] *)
Definition is_true (v : jsval) : bool :=
  match v with JBool true => true | _ => false end.

(** [v === w] *)
Definition strict_eq (v w : jsval) : bool := bool_decide (v = w).

(** A plain object: its own enumerable string-keyed properties. *)
Abbreviation object := (gmap string jsval).

(** [o[key]]: a missing property reads as [undefined]. *)
Definition prop (o : object) (key : string) : jsval :=
  default JUndefined (o !! key).

(** [Object.keys(o).length] *)
Definition keys_length (o : object) : nat := size o.

(** [Array.prototype.splice(start, deleteCount, ...items)] for
    [0 <= start]; [take] and [drop] clamp at the end of the array as
    [splice] does. *)
Definition splice {A} (start deleteCount : nat) (items l : list A) : list A :=
  take start l ++ items ++ drop (start + deleteCount) l.

(** ** CookieSecretsStore *)

Module CookieSecretsStore.

(** [this.store] *)
Abbreviation t := (list jsval).

Inductive result (A : Type) : Type :=
  | Ok (a : A)
  | Throw (msg : string).
Arguments Ok {A} a.
Arguments Throw {A} msg.

(** [array.indexOf(key)] counted from index [i]; [-1] when absent. *)
Fixpoint indexOf_from (i : Z) (key : jsval) (l : t) : Z :=
  match l with
  | [] => -1
  | x :: l' => if strict_eq x key then i else indexOf_from (i + 1) key l'
  end.

Definition indexOf (key : jsval) (l : t) : Z := indexOf_from 0 key l.

(** [array.lastIndexOf(key)] counted from index [i]; [-1] when absent. *)
Fixpoint lastIndexOf_from (i : Z) (key : jsval) (l : t) : Z :=
  match l with
  | [] => -1
  | x :: l' =>
      let later := lastIndexOf_from (i + 1) key l' in
      if later =? -1 then (if strict_eq x key then i else -1) else later
  end.

Definition lastIndexOf (key : jsval) (l : t) : Z := lastIndexOf_from 0 key l.

(** The negation of the guard of [addSigning]:
    [typeof key !== 'string' || key.length < 32]. *)
Definition acceptable (key : jsval) : bool :=
  match key with
  | JStr s => (32 <=? String.length s)%nat
  | _ => false
  end.

Definition addSigning (key : jsval) (store : t) : result t :=
  if negb (acceptable key)
  then Throw "The secret must be a string with length 32 or greater"
  else Ok (splice 0 0 [key] store).

Definition addUnsigning (key : jsval) (store : t) : t :=
  splice 1 0 [key] store.

Definition contains (key : jsval) (store : t) : bool :=
  negb (lastIndexOf key store =? -1).

Definition isSigning (key : jsval) (store : t) : bool :=
  indexOf key store =? 0.

Definition remove (key : jsval) (store : t) : result t :=
  let index := lastIndexOf key store in
  if index =? 0
  then Throw "Unable to remove the signing key. Add another one first"
  else if 0 <? index
       then Ok (splice (Z.to_nat index) 1 [] store)
       else Ok store.

(** The argument of the constructor: an array ([Array.isArray]) or
    any other value. *)
Inductive init : Type :=
  | InitArray (secrets : list jsval)
  | InitValue (secret : jsval).

(** What [new CookieSecretsStore(initSecrets)] evaluates to. On an
    empty array the constructor returns an [Error] object, which
    takes the place of the instance. *)
Inductive constructed : Type :=
  | Built (store : t)
  | ReturnedError (msg : string)
  | Thrown (msg : string).

Definition new (initSecrets : init) : constructed :=
  match initSecrets with
  | InitArray secrets =>
      match secrets with
      | [] => ReturnedError "The initial array of secrets must have at least 1 secret"
      | first :: others =>
          match addSigning first [] with
          | Throw msg => Thrown msg
          | Ok store => Built (fold_left (fun st key => addUnsigning key st) others store)
          end
      end
  | InitValue secret =>
      match addSigning secret [] with
      | Throw msg => Thrown msg
      | Ok store => Built store
      end
  end.

(** One call of a mutating method. *)
Inductive mutation : Type :=
  | AddSigning (key : jsval)
  | AddUnsigning (key : jsval)
  | Remove (key : jsval).

Definition apply (m : mutation) (store : t) : result t :=
  match m with
  | AddSigning key => addSigning key store
  | AddUnsigning key => Ok (addUnsigning key store)
  | Remove key => remove key store
  end.

(** A sequence of calls; a call that throws leaves the store as it
    was and the caller carries on. *)
Definition run (ms : list mutation) (store : t) : t :=
  fold_left (fun st m => match apply m st with Ok st' => st' | Throw _ => st end) ms store.

(** The store has a signing secret: a string of at least 32
    characters at position 0. *)
Definition has_signing (store : t) : Prop :=
  exists key rest, store = key :: rest /\ acceptable key = true.

End CookieSecretsStore.

(** ** The collaborators of the plugin *)

(** An error value handed to a callback; it is truthy, and
    [code] is what [err.code] reads. *)
Record Err : Type := { code : jsval; message : string }.

(** [options.cookie] *)
Record CookieOpts : Type := {
  path : option string;   (* [None]: undefined *)
  secure : jsval
}.

(** What the plugin takes from outside [fastifySession.js] and does
    not define: the [cookie-signature] library and the constructor of
    the [Session] class ([./session]).

    - [Secret] is the type of [options.secret];
    - [cookieSignature_unsign val secret] is
      [cookieSignature.unsign(val, secret)], [None] standing for [false];
    - [new_Session cookieOpts secret prevSession entropy] is
      [new Session(cookieOpts, secret, prevSession)], the third
      argument being [None] when the call has two; [entropy] is the
      random material the constructor draws a fresh id from. *)
Class Collaborators : Type := {
  Secret : Type;
  Entropy : Type;
  cookieSignature_unsign : string -> Secret -> option string;
  new_Session : CookieOpts -> Secret -> option object -> Entropy -> object
}.

(** A session store, seen from the plugin. The three [_length] fields
    are [store.get.length], [store.set.length] and
    [store.destroy.length], the declared parameter counts. A method is
    modelled by what it passes to its callback, once, for the key it is
    called with: [None] is a falsy [err] or [session]. *)
Record Store : Type := {
  get_length : nat;
  set_length : nat;
  destroy_length : nat;
  get_reply : string -> option Err * option object;
  set_reply : jsval -> object -> option Err;
  destroy_reply : jsval -> option Err
}.

(** [request.req.connection], when truthy. *)
Record Connection : Type := { encrypted : jsval }.

(** The properties of the request the plugin reads or writes.
    [session] is [None] for [null] or [undefined]; the decorated
    initial value is the empty object. [sessionStore] is the store as
    the request sees it when the handler runs. *)
Record Request : Type := {
  url : string;
  connection : option Connection;
  cookies : gmap string string;
  headers : gmap string jsval;
  session : option object;
  sessionStore : Store
}.

(** [request.session = s] *)
Definition set_session (request : Request) (s : option object) : Request :=
  {| url := url request;
     connection := connection request;
     cookies := cookies request;
     headers := headers request;
     session := s;
     sessionStore := sessionStore request |}.

(** How a handler ends: [done()], [done(err)] with a truthy [err], or
    an uncaught [TypeError]. *)
Inductive Completion : Type :=
  | Done
  | DoneErr (err : Err)
  | TypeError.

(** [done(err)] for an [err] that may be falsy. *)
Definition done_with (err : option Err) : Completion :=
  match err with
  | Some e => DoneErr e
  | None => Done
  end.

(** Modelled from the spec: the [Session] class ([lib/session.js]) and
    its method [isExpired] are not among the sources. Section 3:
    [expires] is an absolute timestamp and "a session is expired when
    now >= expires". A session without a numeric [expires] is taken as
    not expired. *)
Definition isExpired (now : Z) (session : object) : bool :=
  match prop session "expires" with
  | JNum e => e <=? now
  | _ => false
  end.

(** Modelled from the spec: the [Session] class is not among the
    sources. Section 3 gives a session, besides its payload, the
    bookkeeping fields id, signedId, expires and cookieOptions, and
    section 4.4 says the initial shape carries exactly these; the
    handlers read them as [sessionId], [encryptedSessionId] and
    [cookie]. *)
Definition bookkeeping_keys : gset string :=
  {[ "sessionId"; "encryptedSessionId"; "expires"; "cookie" ]}.

Section Plugin.
Context `{Collaborators}.

(** [options], after [ensureDefaults]. *)
Record Options : Type := {
  secret : Secret;
  store : Store;
  cookieName : string;
  cookie : CookieOpts;
  saveUninitialized : jsval
}.

(** The calls a handler makes to its collaborators, in order.
    [withRequest] tells whether the request was passed to the store
    (the longer calling form). *)
Inductive Event : Type :=
  | Unsign (val : string) (key : Secret)
  | StoreGet (id : string) (withRequest : bool)
  | StoreDestroy (id : jsval) (withRequest : bool)
  | StoreSet (id : jsval) (sess : object) (withRequest : bool)
  | SetCookie (name : string) (value : jsval) (cookieObj : jsval).

Record Outcome : Type := {
  request_after : Request;
  trace : list Event;
  completion : Completion
}.

(** [cookieOpts.path || '/'] *)
Definition path_or_default (cookieOpts : CookieOpts) : string :=
  match path cookieOpts with
  | Some p => if String.eqb p "" then "/" else p
  | None => "/"
  end.

(** [url.indexOf(cookieOpts.path || '/') === 0]: the request is under
    the path of the cookie. *)
Definition in_path_scope (cookieOpts : CookieOpts) (request : Request) : bool :=
  String.prefix (path_or_default cookieOpts) (url request).

(** [connection && connection.encrypted === true] *)
Definition connection_encrypted (request : Request) : bool :=
  match connection request with
  | Some conn => is_true (encrypted conn)
  | None => false
  end.

(** [request.headers['x-forwarded-proto'] === 'https'] *)
Definition forwarded_https (request : Request) : bool :=
  strict_eq (prop (headers request) "x-forwarded-proto") (JStr "https").

(** The request without the cookie [name]. *)
Definition drop_cookie (name : string) (request : Request) : Request :=
  {| url := url request;
     connection := connection request;
     cookies := delete name (cookies request);
     headers := headers request;
     session := session request;
     sessionStore := sessionStore request |}.

Definition newSession (key : Secret) (request : Request) (cookieOpts : CookieOpts)
    (entropy : Entropy) (tr : list Event) : Outcome :=
  {| request_after := set_session request (Some (new_Session cookieOpts key None entropy));
     trace := tr;
     completion := Done |}.

(** The callback built by [getDestroyCallback], applied to [err]. *)
Definition getDestroyCallback (key : Secret) (request : Request) (cookieOpts : CookieOpts)
    (entropy : Entropy) (tr : list Event) (err : option Err) : Outcome :=
  match err with
  | Some e => {| request_after := request; trace := tr; completion := DoneErr e |}
  | None => newSession key request cookieOpts entropy tr
  end.

(** [preValidation(options)] returns [handleSession]. The two flags,
    [cookieOpts] and [secret] are read once, from [options] as it is
    when the hook is built. [options] itself is an object shared with
    the caller: [handleSession] reads [options.cookieName] and
    [options.store] from it when it runs, so the hook takes the object
    in its state at that time as its first argument. [now] is the
    clock [isExpired] reads.

    The collaborators are taken to return: [unsign] and the [Session]
    constructor are functions, and what the store's [get] passes is an
    object that has the [isExpired] method. The exceptions the code
    can let through there (a secret that is not a string, a stored
    payload without the methods of [Session]) are outside the model;
    so is a change of [options.cookie] between building the hook and
    running it, [cookieOpts] being taken as it is when the hook is
    built. *)
Definition preValidation (options : Options)
    : Options -> Entropy -> Z -> Request -> Outcome :=
  let storeImplementsRequestAtGet := (3 <=? get_length (store options))%nat in
  let implementsRequestAtDestroy := (3 <=? destroy_length (store options))%nat in
  let cookieOpts := cookie options in
  let key := secret options in
  fun options_now entropy now request =>
    if negb (in_path_scope cookieOpts request)
    then {| request_after := request; trace := []; completion := Done |}
    else
      match cookies request !! cookieName options_now with
      | None => newSession key request cookieOpts entropy []
      | Some sessionId =>
          if String.eqb sessionId ""
          then newSession key request cookieOpts entropy []
          else
            let tr1 := [Unsign sessionId key] in
            match cookieSignature_unsign sessionId key with
            | None => newSession key request cookieOpts entropy tr1
            | Some decryptedSessionId =>
                let tr2 := tr1 ++ [StoreGet decryptedSessionId storeImplementsRequestAtGet] in
                match get_reply (store options_now) decryptedSessionId with
                | (Some err, _) =>
                    if strict_eq (code err) (JStr "ENOENT")
                    then newSession key request cookieOpts entropy tr2
                    else {| request_after := request; trace := tr2; completion := DoneErr err |}
                | (None, None) => newSession key request cookieOpts entropy tr2
                | (None, Some sess) =>
                    if isExpired now sess
                    then
                      let tr3 := tr2 ++ [StoreDestroy (JStr sessionId) implementsRequestAtDestroy] in
                      getDestroyCallback key request cookieOpts entropy tr3
                        (destroy_reply (store options_now) (JStr sessionId))
                    else
                      {| request_after :=
                           set_session request (Some (new_Session cookieOpts key (Some sess) entropy));
                         trace := tr2;
                         completion := Done |}
                end
            end
      end.

Definition isSessionModified (sess : object) : bool :=
  negb (keys_length sess =? 4)%nat.

(** [shouldSaveSession]; [None] is the [TypeError] of [Object.keys] on
    a [null] session, which [&&] reaches only when [saveUninitialized]
    is falsy. *)
Definition shouldSaveSession (request : Request) (cookieOpts : CookieOpts)
    (saveUninitialized : jsval) : option bool :=
  skip ← (if negb (truthy saveUninitialized)
          then (fun sess => negb (isSessionModified sess)) <$> session request
          else Some false);
  Some
    (if skip : bool then false
     else if negb (is_true (secure cookieOpts)) then true
     else if connection_encrypted request then true
     else forwarded_https request).

(** [onSend(options)] returns [saveSession]; the flag is read when the
    hook is built, the rest of [options] when it runs. The [options()]
    method of the session's cookie belongs to a class that is not
    modelled: the [SetCookie] event records the cookie object it is
    called on. *)
Definition onSend (options : Options) : Options -> Request -> Outcome :=
  let storeImplementsRequestAtSet := (4 <=? set_length (store options))%nat in
  fun options_now request =>
    let skipped := {| request_after := request; trace := []; completion := Done |} in
    match session request with
    | None => skipped
    | Some sess =>
        if negb (truthy (prop sess "sessionId")) then skipped
        else
          match shouldSaveSession request (cookie options_now) (saveUninitialized options_now) with
          | None => {| request_after := request; trace := []; completion := TypeError |}
          | Some false => skipped
          | Some true =>
              let tr1 := [StoreSet (prop sess "sessionId") sess storeImplementsRequestAtSet] in
              match set_reply (store options_now) (prop sess "sessionId") sess with
              | Some err => {| request_after := request; trace := tr1; completion := DoneErr err |}
              | None =>
                  match prop sess "cookie" with
                  | JObj c =>
                      {| request_after := request;
                         trace := tr1 ++ [SetCookie (cookieName options_now)
                                            (prop sess "encryptedSessionId") (JObj c)];
                         completion := Done |}
                  | _ => {| request_after := request; trace := tr1; completion := TypeError |}
                  end
              end
          end
    end.

(** [request.destroySession(done)]; the request is [this]. Reading
    [request.session.sessionId] throws when the session is [null]. *)
Definition destroySession (request : Request) : Outcome :=
  let implementsRequestAtDestroy := (3 <=? destroy_length (sessionStore request))%nat in
  match session request with
  | None => {| request_after := request; trace := []; completion := TypeError |}
  | Some sess =>
      let id := prop sess "sessionId" in
      {| request_after := set_session request None;
         trace := [StoreDestroy id implementsRequestAtDestroy];
         completion := done_with (destroy_reply (sessionStore request) id) |}
  end.

(** What [session(fastify, options, next)] registers, for [options]
    that passed [checkOptions] and [ensureDefaults]. *)
Record Registration : Type := {
  sessionStore_decorator : Store;
  destroySession_decorator : Request -> Outcome;
  preValidation_hook : Options -> Entropy -> Z -> Request -> Outcome;
  onSend_hook : Options -> Request -> Outcome
}.

Definition register (options : Options) : Registration :=
  {| sessionStore_decorator := store options;
     destroySession_decorator := destroySession;
     preValidation_hook := preValidation options;
     onSend_hook := onSend options |}.

(** Projections of a trace. *)
Definition is_unsign (e : Event) : bool :=
  match e with Unsign _ _ => true | _ => false end.

Definition is_store_set (e : Event) : bool :=
  match e with StoreSet _ _ _ => true | _ => false end.

Definition is_set_cookie (e : Event) : bool :=
  match e with SetCookie _ _ _ => true | _ => false end.

(** The calling form of each store call of a trace: [true] for the
    form with the request. *)
Definition get_forms (tr : list Event) : list bool :=
  omap (fun e => match e with StoreGet _ w => Some w | _ => None end) tr.

Definition set_forms (tr : list Event) : list bool :=
  omap (fun e => match e with StoreSet _ _ w => Some w | _ => None end) tr.

Definition destroy_forms (tr : list Event) : list bool :=
  omap (fun e => match e with StoreDestroy _ w => Some w | _ => None end) tr.

End Plugin.

(** ** An instance of the collaborators, to run the hooks on *)

Module Demo.

(** A stand-in for [cookie-signature] with its interface: the signed
    value is the value, a dot and a tag that depends on the key (here
    the key itself); [unsign] gives the value back when the tag is the
    one of the key, and [None] otherwise. *)
Definition sign (val key : string) : string := val +:+ "." +:+ key.

Definition unsign (val key : string) : option string :=
  let tag := "." +:+ key in
  let n := (String.length val - String.length tag)%nat in
  if (String.length tag <=? String.length val)%nat
     && String.eqb (substring n (String.length tag) val) tag
  then Some (substring 0 n val)
  else None.

(** A stand-in for the [Session] class: the four bookkeeping
    properties, under those of the previous session when there is one. *)
Definition Session (cookieOpts : CookieOpts) (key : string)
    (prevSession : option object) (entropy : string) : object :=
  let fresh : object :=
    {[ "sessionId" := JStr entropy;
       "encryptedSessionId" := JStr (sign entropy key);
       "expires" := JNull;
       "cookie" := JObj 1 ]} in
  match prevSession with
  | Some prev => prev ∪ fresh
  | None => fresh
  end.

Definition collaborators : Collaborators :=
  {| Secret := string;
     Entropy := string;
     cookieSignature_unsign := unsign;
     new_Session := Session |}.

(** A store over a finite map: [get] finds the session or passes
    nothing, [set] succeeds, [destroy] passes [destroyError]. *)
Definition memoryStore (getLength setLength destroyLength : nat)
    (content : gmap string object) (destroyError : option Err) : Store :=
  {| get_length := getLength;
     set_length := setLength;
     destroy_length := destroyLength;
     get_reply := fun id => (None, content !! id);
     set_reply := fun _ _ => None;
     destroy_reply := fun _ => destroyError |}.

(** A store whose [get] passes [err] for every id. *)
Definition failingStore (err : Err) : Store :=
  {| get_length := 2;
     set_length := 3;
     destroy_length := 2;
     get_reply := fun _ => (Some err, None);
     set_reply := fun _ _ => Some err;
     destroy_reply := fun _ => Some err |}.

Definition oldSecret : string := "oldoldoldoldoldoldoldoldoldoldold".
Definition newSecret : string := "newnewnewnewnewnewnewnewnewnewnew".

Definition cookieOpts (secureOpt : jsval) : CookieOpts :=
  {| path := None; secure := secureOpt |}.

Definition options (key : string) (st : Store) (secureOpt saveUninit : jsval)
    : @Options collaborators :=
  @Build_Options collaborators key st "sessionId" (cookieOpts secureOpt) saveUninit.

(** A request for [/] over a plain connection. *)
Definition request (cookieValue : option string) (sess : option object) (st : Store)
    : Request :=
  {| url := "/";
     connection := Some {| encrypted := JUndefined |};
     cookies := match cookieValue with
                | Some v => {[ "sessionId" := v ]}
                | None => ∅
                end;
     headers := ∅;
     session := sess;
     sessionStore := st |}.

(** A stored session with a payload key, expiring at time [100]. *)
Definition storedSession : object :=
  {[ "sessionId" := JStr "abc";
     "encryptedSessionId" := JStr (sign "abc" oldSecret);
     "expires" := JNum 100;
     "cookie" := JObj 7;
     "user" := JNum 1 ]}.

(** The store holds the session [abc]; its methods declare the short
    calling forms. *)
Definition liveStore : Store :=
  memoryStore 2 3 2 {[ "abc" := storedSession ]} None.

(** The same store after its [destroy] was replaced by a function
    that declares three parameters. *)
Definition patchedStore : Store :=
  memoryStore 2 3 3 {[ "abc" := storedSession ]} None.

(** The cookie of the session [abc], signed under the old secret. *)
Definition oldCookie : string := sign "abc" oldSecret.

Definition ioError : Err := {| code := JStr "EIO"; message := "store unavailable" |}.
Definition notFound : Err := {| code := JStr "ENOENT"; message := "no such session" |}.

End Demo.

(** ** Setting the plugin up *)

(** [option(options, key, def)], [value] being what [options[key]]
    reads. *)
Definition option_ (value def : jsval) : jsval :=
  if strict_eq value JUndefined then def else value.

(** [value.length] for a truthy [value]: the length of a string, the
    [length] property of an object ([objLength] gives it, [None] when
    the object has none), and [undefined] for a number or a boolean. *)
Definition length_of (objLength : positive -> option Z) (value : jsval) : option Z :=
  match value with
  | JStr s => Some (Z.of_nat (String.length s))
  | JObj ref => objLength ref
  | _ => None
  end.

(** [checkOptions(options)], on the value of [options.secret]: the
    message of the error it returns, [None] when it returns nothing.
    [undefined < 32] is false. *)
Definition checkOptions (objLength : positive -> option Z) (secretValue : jsval)
    : option string :=
  if negb (truthy secretValue)
  then Some "the secret option is required!"
  else if match length_of objLength secretValue with
          | Some n => n <? 32
          | None => false
          end
       then Some "the secret must have length 32 or greater"
       else None.

Section Setup.
Context `{Collaborators}.

(** [options] as the caller of the plugin passes it: [raw_store],
    [raw_cookieName] and [raw_cookie] are [None] when the property is
    missing; a cookie object without [secure] has [secure] undefined. *)
Record RawOptions : Type := {
  raw_secret : Secret;
  raw_store : option Store;
  raw_cookieName : option string;
  raw_cookie : option CookieOpts;
  raw_saveUninitialized : jsval
}.

(** [ensureDefaults(options)]; [newStore] is [new Store()], the store
    class of [./store]. *)
Definition ensureDefaults (newStore : Store) (options : RawOptions) : Options :=
  let store_ := match raw_store options with
                | Some st => st
                | None => newStore
                end in
  let cookieName_ := match raw_cookieName options with
                     | Some name => if String.eqb name "" then "sessionId" else name
                     | None => "sessionId"
                     end in
  let cookie_ := match raw_cookie options with
                 | Some c => c
                 | None => {| path := None; secure := JUndefined |}
                 end in
  {| secret := raw_secret options;
     store := store_;
     cookieName := cookieName_;
     cookie := {| path := path cookie_; secure := option_ (secure cookie_) (JBool true) |};
     saveUninitialized := option_ (raw_saveUninitialized options) (JBool true) |}.

(** What the plugin function hands to [next]. *)
Inductive Registered : Type :=
  | NextError (msg : string)
  | NextOk (reg : Registration).

(** The plugin function [session(fastify, options, next)].
    [secretValue] gives [options.secret] as a JavaScript value. *)
Definition session_plugin (objLength : positive -> option Z) (secretValue : Secret -> jsval)
    (newStore : Store) (options : RawOptions) : Registered :=
  match checkOptions objLength (secretValue (raw_secret options)) with
  | Some msg => NextError msg
  | None => NextOk (register (ensureDefaults newStore options))
  end.

Definition is_store_get (e : Event) : bool :=
  match e with StoreGet _ _ => true | _ => false end.

Definition is_store_destroy (e : Event) : bool :=
  match e with StoreDestroy _ _ => true | _ => false end.

End Setup.

(** [true] on a call of [addSigning]. *)
Definition is_addSigning (m : CookieSecretsStore.mutation) : bool :=
  match m with
  | CookieSecretsStore.AddSigning _ => true
  | _ => false
  end.

Module Samples.
Import Demo.

(** Options that name the secret and nothing else. *)
Definition bareOptions : @RawOptions collaborators :=
  @Build_RawOptions collaborators oldSecret None None None JUndefined.

(** Objects without a [length] property. *)
Definition noLength : positive -> option Z := fun _ => None.

(** A session as the stand-in constructor makes it. *)
Definition freshSession : object :=
  Session (cookieOpts (JBool false)) oldSecret None "fresh".

(** A store whose [set] passes an error and whose other methods
    succeed. *)
Definition readOnlyStore : Store :=
  {| get_length := 2;
     set_length := 3;
     destroy_length := 2;
     get_reply := fun _ => (None, None);
     set_reply := fun _ _ => Some ioError;
     destroy_reply := fun _ => None |}.

(** Options whose cookie is for the paths under [/app]. *)
Definition scopedOptions : @Options collaborators :=
  @Build_Options collaborators oldSecret liveStore "sessionId"
    {| path := Some "/app"; secure := JBool true |} (JBool true).

End Samples.

(** * Properties *)

(** ** The secrets store *)

Module CookieSecretsStoreFacts.
Import CookieSecretsStore.

(** [lastIndexOf] finds the last position that holds the key, or
    answers [-1] when no position does. *)
Lemma lastIndexOf_from_spec (key : jsval) (l : t) : forall i : Z,
  0 <= i ->
  (lastIndexOf_from i key l = -1 /\ key ∉ l) \/
  (exists n : nat,
      lastIndexOf_from i key l = i + Z.of_nat n /\
      l !! n = Some key /\
      forall m : nat, (n < m)%nat -> l !! m <> Some key).
Proof.
  induction l as [|x l IH]; intros i Hi; simpl.
  - left. split; [reflexivity | apply not_elem_of_nil].
  - destruct (IH (i + 1) ltac:(lia)) as [[Hlater Hnot] | (n & Hlater & Hn & Hlast)]; rewrite Hlater.
    + simpl. unfold strict_eq. case_bool_decide as Hx.
      * right. exists 0%nat. split; [lia|]. split; [by subst|].
        intros [|m] Hm; [lia|]. simpl. intros Hin.
        apply Hnot. by eapply list_elem_of_lookup_2.
      * left. split; [reflexivity|]. rewrite elem_of_cons. intros [->|?]; tauto.
    + assert ((i + 1 + Z.of_nat n =? -1) = false) as -> by (apply Z.eqb_neq; lia).
      right. exists (S n). split; [lia|]. split; [exact Hn|].
      intros [|m] Hm; [lia|]. simpl. apply Hlast. lia.
Qed.

Lemma lastIndexOf_absent (key : jsval) (l : t) :
  lastIndexOf key l = -1 <-> key ∉ l.
Proof.
  unfold lastIndexOf.
  destruct (lastIndexOf_from_spec key l 0 ltac:(lia)) as [[H1 H2] | (n & H1 & H2 & _)].
  - tauto.
  - split; [lia|]. intros Hnot. exfalso. apply Hnot. by eapply list_elem_of_lookup_2.
Qed.

Lemma lastIndexOf_found (key : jsval) (l : t) (n : nat) :
  l !! n = Some key ->
  (forall m : nat, (n < m)%nat -> l !! m <> Some key) ->
  lastIndexOf key l = Z.of_nat n.
Proof.
  intros Hn Hlast. unfold lastIndexOf.
  destruct (lastIndexOf_from_spec key l 0 ltac:(lia)) as [[_ Hnot] | (k & H1 & Hk & Hklast)].
  - exfalso. apply Hnot. by eapply list_elem_of_lookup_2.
  - rewrite H1. destruct (Nat.lt_trichotomy n k) as [Hlt | [-> | Hgt]].
    + exfalso. by apply (Hlast k).
    + lia.
    + exfalso. by apply (Hklast n).
Qed.

(** [lastIndexOf] answers [0] exactly when the key is at position 0
    and nowhere after it. *)
Lemma lastIndexOf_zero (key : jsval) (l : t) :
  lastIndexOf key l = 0 <-> head l = Some key /\ key ∉ tail l.
Proof.
  split.
  - intros H0. unfold lastIndexOf in H0.
    destruct (lastIndexOf_from_spec key l 0 ltac:(lia)) as [[H1 _] | (n & H1 & Hn & Hlast)]; [lia|].
    assert (n = 0%nat) as -> by lia.
    destruct l as [|x l]; [discriminate|]. simpl in *. split; [exact Hn|].
    intros Hin. apply list_elem_of_lookup_1 in Hin as [m Hm].
    apply (Hlast (S m)); [lia | exact Hm].
  - intros [Hhead Htail]. destruct l as [|x l]; [discriminate|].
    simpl in *. apply (lastIndexOf_found key (x :: l) 0); [exact Hhead|].
    intros [|m] Hm; [lia|]. simpl. intros Hin.
    apply Htail. by eapply list_elem_of_lookup_2.
Qed.

Lemma splice_delete_one {A} (n : nat) (l : list A) :
  splice n 1 [] l = delete n l.
Proof. unfold splice. simpl. rewrite delete_take_drop. by rewrite Nat.add_1_r. Qed.

Lemma addSigning_accepts (key : jsval) (store : t) :
  acceptable key = true -> addSigning key store = Ok (key :: store).
Proof. intros Hk. unfold addSigning. by rewrite Hk. Qed.

Lemma addSigning_rejects (key : jsval) (store : t) :
  acceptable key = false -> exists msg, addSigning key store = Throw msg.
Proof. intros Hk. unfold addSigning. rewrite Hk. simpl. eauto. Qed.

Lemma addUnsigning_cons (key x : jsval) (rest : t) :
  addUnsigning key (x :: rest) = x :: key :: rest.
Proof. reflexivity. Qed.

(** [remove] throws exactly when [lastIndexOf] answers [0]. *)
Lemma remove_throws_iff (key : jsval) (store : t) :
  (exists msg, remove key store = Throw msg) <-> lastIndexOf key store = 0.
Proof.
  unfold remove. split.
  - intros [msg Hr]. destruct (lastIndexOf key store =? 0) eqn:E; [by apply Z.eqb_eq|].
    destruct (0 <? lastIndexOf key store); discriminate.
  - intros ->. simpl. eauto.
Qed.

(** A successful [remove] either finds nothing and changes nothing, or
    deletes the last occurrence of the key, which is not position 0. *)
Lemma remove_ok_inv (key : jsval) (store store' : t) :
  remove key store = Ok store' ->
  ((key ∉ store) /\ store' = store) \/
  (exists n : nat, (0 < n)%nat /\ store !! n = Some key /\
      (forall m : nat, (n < m)%nat -> store !! m <> Some key) /\
      store' = delete n store).
Proof.
  unfold remove, lastIndexOf.
  destruct (lastIndexOf_from_spec key store 0 ltac:(lia)) as [[H1 Hnot] | (n & H1 & Hn & Hlast)];
    rewrite ?Z.add_0_l in H1; rewrite H1; simpl.
  - intros [= <-]. by left.
  - destruct (Z.of_nat n =? 0) eqn:E0; [done|].
    apply Z.eqb_neq in E0.
    assert ((0 <? Z.of_nat n) = true) as -> by (apply Z.ltb_lt; lia).
    intros [= <-]. right. exists n. repeat split; try done; [lia|].
    rewrite Nat2Z.id. apply splice_delete_one.
Qed.

Lemma remove_later_occurrence (key : jsval) (store : t) (n : nat) :
  (0 < n)%nat -> store !! n = Some key ->
  (forall m : nat, (n < m)%nat -> store !! m <> Some key) ->
  remove key store = Ok (delete n store).
Proof.
  intros Hpos Hn Hlast. unfold remove.
  rewrite (lastIndexOf_found key store n Hn Hlast).
  assert ((Z.of_nat n =? 0) = false) as -> by (apply Z.eqb_neq; lia).
  assert ((0 <? Z.of_nat n) = true) as -> by (apply Z.ltb_lt; lia).
  by rewrite Nat2Z.id, splice_delete_one.
Qed.

Lemma remove_keeps_head (key : jsval) (store store' : t) :
  remove key store = Ok store' -> head store' = head store.
Proof.
  intros Hr. apply remove_ok_inv in Hr as [[_ ->] | (n & Hpos & _ & _ & ->)]; [done|].
  destruct store as [|x rest]; [done|]. destruct n; [lia | done].
Qed.

Lemma has_signing_head (store : t) :
  has_signing store <-> exists key, head store = Some key /\ acceptable key = true.
Proof.
  split.
  - intros (key & rest & -> & Hk). eauto.
  - intros (key & Hh & Hk). destruct store as [|x rest]; [discriminate|].
    injection Hh as ->. by exists key, rest.
Qed.

(** [isSigning] holds of the key at position 0 and of no other. *)
Lemma isSigning_head (key x : jsval) (rest : t) :
  isSigning key (x :: rest) = true <-> x = key.
Proof.
  unfold isSigning, indexOf. simpl. unfold strict_eq. case_bool_decide as Hx.
  - split; [done | intros _; by apply Z.eqb_eq].
  - split; [|done]. intros H0. apply Z.eqb_eq in H0. exfalso.
    assert (forall l i, 0 < i -> indexOf_from i key l <> 0) as Hne.
    { clear. induction l as [|y l IH]; intros i Hi; simpl; [lia|].
      destruct (strict_eq y key); [lia | apply IH; lia]. }
    apply (Hne rest (0 + 1)); [lia | exact H0].
Qed.

(** Every mutation keeps a signing secret at position 0. *)
Lemma apply_has_signing (m : mutation) (store store' : t) :
  has_signing store -> apply m store = Ok store' -> has_signing store'.
Proof.
  intros Hs. destruct m as [key | key | key]; simpl.
  - unfold addSigning. destruct (acceptable key) eqn:Hk; simpl; [|discriminate].
    intros [= <-]. by exists key, store.
  - intros [= <-]. destruct Hs as (k & rest & -> & Hk).
    rewrite addUnsigning_cons. by exists k, (key :: rest).
  - intros Hr. rewrite has_signing_head in *.
    by rewrite (remove_keeps_head _ _ _ Hr).
Qed.

Lemma run_has_signing (ms : list mutation) (store : t) :
  has_signing store -> has_signing (run ms store).
Proof.
  revert store. induction ms as [|m ms IH]; intros store Hs; [exact Hs|].
  unfold run. simpl. apply IH.
  destruct (apply m store) as [store'|msg] eqn:E; [|exact Hs].
  by eapply apply_has_signing.
Qed.

Lemma addUnsigning_fold_head (others : list jsval) (x : jsval) (rest : t) :
  head (fold_left (fun st key => addUnsigning key st) others (x :: rest)) = Some x.
Proof.
  revert rest. induction others as [|k others IH]; intros rest; [done|].
  simpl. rewrite addUnsigning_cons. apply IH.
Qed.

(** A store that the constructor built has a signing secret. *)
Lemma new_has_signing (initSecrets : init) (store : t) :
  new initSecrets = Built store -> has_signing store.
Proof.
  rewrite has_signing_head.
  destruct initSecrets as [[|first others] | secret0]; simpl; [discriminate | |].
  - unfold addSigning. destruct (acceptable first) eqn:Hk; simpl; [|discriminate].
    intros [= <-]. exists first. split; [apply addUnsigning_fold_head | exact Hk].
  - unfold addSigning. destruct (acceptable secret0) eqn:Hk; simpl; [|discriminate].
    intros [= <-]. by exists secret0.
Qed.

(** What the methods do to a store with a signing secret (a string
    of at least 32 characters at position 0): it keeps one under every mutation,
    and [isSigning] holds of the secret at position 0 only.
    [addSigning] of a secret it accepts inserts it at position 0 and
    the previous signing secret becomes position 1; a secret it does
    not accept makes it throw. [remove] throws exactly when the secret
    is at position 0 and at no later position; when the last
    occurrence of the secret is at a later position [n], [remove]
    succeeds and deletes position [n], leaving position 0 as it was,
    also if the same secret is at position 0 as well. *)
Theorem signing_secret_stays_at_position_0 (store : t) (key : jsval) :
  has_signing store ->
  (forall k, isSigning k store = true <-> head store = Some k) /\
  (acceptable key = true ->
     addSigning key store = Ok (key :: store) /\
     (key :: store) !! 1%nat = head store) /\
  (acceptable key = false -> exists msg, addSigning key store = Throw msg) /\
  ((exists msg, remove key store = Throw msg) <->
     head store = Some key /\ key ∉ tail store) /\
  (forall n : nat, (0 < n)%nat -> store !! n = Some key ->
     (forall m : nat, (n < m)%nat -> store !! m <> Some key) ->
     remove key store = Ok (delete n store) /\
     head (delete n store) = head store) /\
  (forall m store', apply m store = Ok store' -> has_signing store') /\
  (forall ms, has_signing (run ms store)).
Proof.
  intros Hs. split_and!.
  - intros k. destruct Hs as (k0 & rest & -> & _). rewrite isSigning_head.
    simpl. split; congruence.
  - intros Hk. split; [by apply addSigning_accepts | by destruct store].
  - apply addSigning_rejects.
  - rewrite remove_throws_iff. apply lastIndexOf_zero.
  - intros n Hpos Hn Hlast.
    pose proof (remove_later_occurrence key store n Hpos Hn Hlast) as Hr.
    split; [exact Hr | by eapply remove_keeps_head].
  - intros m store'. by apply apply_has_signing.
  - intros ms. by apply run_has_signing.
Qed.

Lemma signing_secret_stays_at_position_0_witness :
  let new_ := JStr Demo.newSecret in
  let old_ := JStr Demo.oldSecret in
  has_signing [new_; old_] /\
  remove old_ [new_; old_] = Ok [new_] /\
  (exists msg, remove new_ [new_; old_] = Throw msg).
Proof.
  intros new_ old_.
  assert (has_signing [new_; old_]) as Hs.
  { exists new_, [old_]. split; reflexivity. }
  split; [exact Hs|]. split.
  - destruct (signing_secret_stays_at_position_0 [new_; old_] old_ Hs)
      as (_ & _ & _ & _ & Hremove & _).
    apply (Hremove 1%nat); [lia | reflexivity |].
    intros [|[|m]] Hm; [lia | lia | discriminate].
  - destruct (signing_secret_stays_at_position_0 [new_; old_] new_ Hs)
      as (_ & _ & _ & Hthrow & _).
    apply Hthrow. split; [reflexivity|].
    simpl. rewrite list_elem_of_singleton. discriminate.
Defined.

(** C9, on a store that names its signing secret twice. The store
    built from the array [[key, key]] has [key] at position 0, and
    [isSigning] says it is the signing secret ([indexOf] answers 0).
    [remove] looks the secret up with [lastIndexOf], which answers 1:
    it does not throw, deletes the later copy and reports success,
    where its documentation has it throw for the signing secret. *)
Theorem remove_of_a_duplicated_signing_secret_does_not_throw :
  let key := JStr Demo.newSecret in
  new (InitArray [key; key]) = Built [key; key] /\
  head [key; key] = Some key /\
  isSigning key [key; key] = true /\
  indexOf key [key; key] = 0 /\
  lastIndexOf key [key; key] = 1 /\
  remove key [key; key] = Ok [key] /\
  (forall msg, remove key [key; key] <> Throw msg).
Proof.
  intros key. split_and!; try reflexivity. intros msg Hthrow. discriminate Hthrow.
Qed.

End CookieSecretsStoreFacts.

(** ** The hooks *)

(** Case analysis along the branches of a handler. *)
Ltac walk_handler :=
  repeat (match goal with
          | |- context [getDestroyCallback _ _ _ _ _ ?e] =>
              destruct e; unfold getDestroyCallback, newSession
          | |- context [newSession _ _ _ _ _] => unfold newSession
          | |- context [match ?x with _ => _ end] => destruct x
          end; simpl).

Section PluginFacts.
Context `{Collaborators}.

(** *** The resolve phase *)

Lemma handleSession_out_of_scope (options options_now : Options) (entropy : Entropy)
    (now : Z) (request : Request) :
  in_path_scope (cookie options) request = false ->
  preValidation options options_now entropy now request =
    {| request_after := request; trace := []; completion := Done |}.
Proof. intros Hscope. unfold preValidation. by rewrite Hscope. Qed.

(** Without a cookie, or with an empty one, a new session is attached
    and nothing is asked of the collaborators. *)
Lemma handleSession_no_cookie (options options_now : Options) (entropy : Entropy)
    (now : Z) (request : Request) :
  in_path_scope (cookie options) request = true ->
  cookies request !! cookieName options_now = None \/
  cookies request !! cookieName options_now = Some "" ->
  preValidation options options_now entropy now request =
    newSession (secret options) request (cookie options) entropy [].
Proof.
  intros Hscope Hcookie. unfold preValidation. rewrite Hscope. simpl.
  by destruct Hcookie as [-> | ->].
Qed.

Lemma handleSession_dropped_cookie (options options_now : Options) (entropy : Entropy)
    (now : Z) (request : Request) :
  in_path_scope (cookie options) request = true ->
  preValidation options options_now entropy now
    (drop_cookie (cookieName options_now) request) =
  newSession (secret options) (drop_cookie (cookieName options_now) request)
    (cookie options) entropy [].
Proof.
  intros Hscope. apply handleSession_no_cookie; [exact Hscope|].
  left. simpl. apply lookup_delete_eq.
Qed.

(** With a cookie, the first thing [handleSession] does is one call of
    [unsign], with [options.secret] as it was when the hook was built. *)
Lemma handleSession_cookie (options options_now : Options) (entropy : Entropy)
    (now : Z) (request : Request) (sessionId : string) :
  in_path_scope (cookie options) request = true ->
  cookies request !! cookieName options_now = Some sessionId ->
  sessionId <> "" ->
  preValidation options options_now entropy now request =
    let key := secret options in
    let tr1 := [Unsign sessionId key] in
    match cookieSignature_unsign sessionId key with
    | None => newSession key request (cookie options) entropy tr1
    | Some decryptedSessionId =>
        let tr2 := tr1 ++ [StoreGet decryptedSessionId (3 <=? get_length (store options))%nat] in
        match get_reply (store options_now) decryptedSessionId with
        | (Some err, _) =>
            if strict_eq (code err) (JStr "ENOENT")
            then newSession key request (cookie options) entropy tr2
            else {| request_after := request; trace := tr2; completion := DoneErr err |}
        | (None, None) => newSession key request (cookie options) entropy tr2
        | (None, Some sess) =>
            if isExpired now sess
            then
              getDestroyCallback key request (cookie options) entropy
                (tr2 ++ [StoreDestroy (JStr sessionId) (3 <=? destroy_length (store options))%nat])
                (destroy_reply (store options_now) (JStr sessionId))
            else
              {| request_after :=
                   set_session request
                     (Some (new_Session (cookie options) key (Some sess) entropy));
                 trace := tr2;
                 completion := Done |}
        end
    end.
Proof.
  intros Hscope Hcookie Hne. unfold preValidation. rewrite Hscope, Hcookie. simpl.
  apply String.eqb_neq in Hne. by rewrite Hne.
Qed.

(** The resolve phase verifies a cookie at most once, and against
    [options.secret] only. *)
Lemma handleSession_unsigns_at_most_once (options options_now : Options)
    (entropy : Entropy) (now : Z) (request : Request) :
  let tr := trace (preValidation options options_now entropy now request) in
  filter (fun e => is_unsign e = true) tr = [] \/
  exists sessionId,
    cookies request !! cookieName options_now = Some sessionId /\
    filter (fun e => is_unsign e = true) tr = [Unsign sessionId (secret options)].
Proof.
  simpl.
  destruct (in_path_scope (cookie options) request) eqn:Hscope;
    [|left; by rewrite handleSession_out_of_scope].
  destruct (cookies request !! cookieName options_now) as [sessionId|] eqn:Hcookie;
    [|left; rewrite handleSession_no_cookie; auto].
  destruct (decide (sessionId = "")) as [->|Hne];
    [left; rewrite handleSession_no_cookie; auto|].
  right. exists sessionId. split; [reflexivity|].
  rewrite (handleSession_cookie _ _ _ _ _ sessionId Hscope Hcookie Hne). simpl.
  destruct (cookieSignature_unsign sessionId (secret options)) as [id|]; [|reflexivity].
  destruct (get_reply (store options_now) id) as [[err|] [sess|]]; simpl;
    repeat (match goal with
            | |- context [if ?b then _ else _] => destruct b
            | |- context [getDestroyCallback _ _ _ _ _ ?e] => destruct e
            end; simpl); reflexivity.
Qed.

(** C4. In the resolve phase, for a request under the cookie path that
    carries a cookie: when the signature is invalid, when the store's
    [get] passes an error whose code is [ENOENT], and when it passes
    neither an error nor a session, the hook ends as it does on the
    same request without the cookie, with a new session attached and
    [done()] called without an error; when [get] passes any other
    error, the hook calls [done(err)] with it and attaches nothing. *)
Theorem invalid_cookie_and_not_found_start_afresh
    (options options_now : Options) (entropy : Entropy) (now : Z)
    (request : Request) (sessionId : string) :
  in_path_scope (cookie options) request = true ->
  cookies request !! cookieName options_now = Some sessionId ->
  sessionId <> "" ->
  let key := secret options in
  let out := preValidation options options_now entropy now request in
  let absent :=
    preValidation options options_now entropy now
      (drop_cookie (cookieName options_now) request) in
  let fresh := Some (new_Session (cookie options) key None entropy) in
  (session (request_after absent) = fresh /\ completion absent = Done) /\
  (cookieSignature_unsign sessionId key = None ->
     session (request_after out) = session (request_after absent) /\
     completion out = completion absent) /\
  (forall id, cookieSignature_unsign sessionId key = Some id ->
     (forall err sess,
         get_reply (store options_now) id = (Some err, sess) ->
         code err = JStr "ENOENT" ->
         session (request_after out) = session (request_after absent) /\
         completion out = completion absent) /\
     (get_reply (store options_now) id = (None, None) ->
         session (request_after out) = session (request_after absent) /\
         completion out = completion absent) /\
     (forall err sess,
         get_reply (store options_now) id = (Some err, sess) ->
         code err <> JStr "ENOENT" ->
         request_after out = request /\ completion out = DoneErr err)).
Proof.
  intros Hscope Hcookie Hne key out absent fresh.
  subst out absent fresh.
  rewrite (handleSession_dropped_cookie _ _ _ _ _ Hscope).
  rewrite (handleSession_cookie _ _ _ _ _ sessionId Hscope Hcookie Hne).
  cbv zeta. fold key. split_and!.
  - reflexivity.
  - reflexivity.
  - intros Hinvalid. rewrite Hinvalid. split; reflexivity.
  - intros id Hvalid. rewrite Hvalid. split_and!.
    + intros err sess Hget Hcode. rewrite Hget. unfold strict_eq.
      rewrite bool_decide_eq_true_2 by exact Hcode. split; reflexivity.
    + intros Hget. rewrite Hget. split; reflexivity.
    + intros err sess Hget Hcode. rewrite Hget. unfold strict_eq.
      rewrite bool_decide_eq_false_2 by exact Hcode. split; reflexivity.
Qed.

(** The renewal of an expired session, as the code does it. In the
    resolve phase, when the store's [get] passes a session
    whose [expires] is before [now], the hook calls the store's
    [destroy] (with the cookie value as it came in) and does nothing
    else with the store; when [destroy] passes an error the hook calls
    [done(err)] and leaves the request as it was, and when it passes
    none the hook attaches a session built without the loaded one and
    calls [done()]. *)
Theorem expired_session_is_destroyed_then_replaced
    (options options_now : Options) (entropy : Entropy) (now : Z)
    (request : Request) (sessionId id : string) (sess : object) (expires : Z) :
  in_path_scope (cookie options) request = true ->
  cookies request !! cookieName options_now = Some sessionId ->
  sessionId <> "" ->
  cookieSignature_unsign sessionId (secret options) = Some id ->
  get_reply (store options_now) id = (None, Some sess) ->
  sess !! "expires" = Some (JNum expires) ->
  expires < now ->
  let out := preValidation options options_now entropy now request in
  trace out =
    [Unsign sessionId (secret options);
     StoreGet id (3 <=? get_length (store options))%nat;
     StoreDestroy (JStr sessionId) (3 <=? destroy_length (store options))%nat] /\
  (forall err, destroy_reply (store options_now) (JStr sessionId) = Some err ->
     completion out = DoneErr err /\ request_after out = request) /\
  (destroy_reply (store options_now) (JStr sessionId) = None ->
     completion out = Done /\
     request_after out =
       set_session request
         (Some (new_Session (cookie options) (secret options) None entropy))).
Proof.
  intros Hscope Hcookie Hne Hunsign Hget Hexpires Hpast out. subst out.
  rewrite (handleSession_cookie _ _ _ _ _ sessionId Hscope Hcookie Hne).
  cbv zeta. rewrite Hunsign, Hget.
  assert (isExpired now sess = true) as ->.
  { unfold isExpired, prop. rewrite Hexpires. simpl. apply Z.leb_le. lia. }
  split_and!.
  - by destruct (destroy_reply (store options_now) (JStr sessionId)).
  - intros err Hdestroy. rewrite Hdestroy. split; reflexivity.
  - intros Hdestroy. rewrite Hdestroy. split; reflexivity.
Qed.

(** *** The persist phase *)

Lemma shouldSaveSession_attached (request : Request) (cookieOpts : CookieOpts)
    (saveUninit : jsval) (sess : object) :
  session request = Some sess ->
  shouldSaveSession request cookieOpts saveUninit =
    Some (if negb (truthy saveUninit) && negb (isSessionModified sess) then false
          else if negb (is_true (secure cookieOpts)) then true
          else if connection_encrypted request then true
          else forwarded_https request).
Proof.
  intros Hsess. unfold shouldSaveSession. rewrite Hsess.
  destruct (truthy saveUninit); simpl; [reflexivity|].
  destruct (isSessionModified sess); reflexivity.
Qed.

(** [saveSession] on a request with a session that has an id. *)
Lemma saveSession_attached (options options_now : Options) (request : Request)
    (sess : object) :
  session request = Some sess ->
  truthy (prop sess "sessionId") = true ->
  onSend options options_now request =
    match shouldSaveSession request (cookie options_now) (saveUninitialized options_now) with
    | None => {| request_after := request; trace := []; completion := TypeError |}
    | Some false => {| request_after := request; trace := []; completion := Done |}
    | Some true =>
        let tr1 := [StoreSet (prop sess "sessionId") sess (4 <=? set_length (store options))%nat] in
        match set_reply (store options_now) (prop sess "sessionId") sess with
        | Some err => {| request_after := request; trace := tr1; completion := DoneErr err |}
        | None =>
            match prop sess "cookie" with
            | JObj c =>
                {| request_after := request;
                   trace := tr1 ++ [SetCookie (cookieName options_now)
                                      (prop sess "encryptedSessionId") (JObj c)];
                   completion := Done |}
            | _ => {| request_after := request; trace := tr1; completion := TypeError |}
            end
        end
    end.
Proof. intros Hsess Hid. unfold onSend. by rewrite Hsess, Hid. Qed.

(** When [shouldSaveSession] answers [false], or the session is
    missing or has no id, [saveSession] calls [done()] and nothing else. *)
Lemma saveSession_skips (options options_now : Options) (request : Request) :
  (forall sess, session request = Some sess ->
     truthy (prop sess "sessionId") = true ->
     shouldSaveSession request (cookie options_now) (saveUninitialized options_now)
       = Some false) ->
  onSend options options_now request =
    {| request_after := request; trace := []; completion := Done |}.
Proof.
  intros Hskip. destruct (session request) as [sess|] eqn:Hsess.
  - destruct (truthy (prop sess "sessionId")) eqn:Hid.
    + rewrite (saveSession_attached _ _ _ sess Hsess Hid). by rewrite (Hskip sess).
    + unfold onSend. by rewrite Hsess, Hid.
  - unfold onSend. by rewrite Hsess.
Qed.

Lemma pristine_key_count (sess : object) :
  dom sess = bookkeeping_keys -> keys_length sess = 4%nat.
Proof.
  intros Hdom. unfold keys_length. rewrite <- size_dom, Hdom. reflexivity.
Qed.

(** C8. When the request has no session, or its session has no
    truthy [sessionId], the persist phase calls [done()] and nothing
    else: no [store.set], no cookie. *)
Theorem unmaterialized_session_is_never_persisted
    (options options_now : Options) (request : Request) :
  session request = None \/
  (exists sess, session request = Some sess /\ truthy (prop sess "sessionId") = false) ->
  let out := onSend options options_now request in
  trace out = [] /\ completion out = Done /\ request_after out = request.
Proof.
  intros Hno out. subst out. rewrite saveSession_skips; [done|].
  intros sess Hsess Hid. destruct Hno as [Hnone | (sess' & Hsess' & Hid')]; congruence.
Qed.

(** C6. When [saveUninitialized] is false and the keys of the session
    are exactly the bookkeeping keys, the persist phase calls [done()]
    and nothing else: no [store.set], no cookie. *)
Theorem pristine_session_is_not_saved
    (options options_now : Options) (request : Request) (sess : object) :
  truthy (saveUninitialized options_now) = false ->
  session request = Some sess ->
  dom sess = bookkeeping_keys ->
  let out := onSend options options_now request in
  trace out = [] /\ completion out = Done /\ request_after out = request.
Proof.
  intros Hsave Hsess Hdom out. subst out. rewrite saveSession_skips; [done|].
  intros sess' Hsess' _. rewrite (shouldSaveSession_attached _ _ _ sess' Hsess').
  assert (sess' = sess) as -> by congruence.
  unfold isSessionModified. rewrite (pristine_key_count sess Hdom), Hsave.
  reflexivity.
Qed.

(** C7. When [cookie.secure] is strictly [true], the connection is
    not encrypted and the [x-forwarded-proto] header is not exactly
    [https], the persist phase calls [done()] and nothing else. When
    [cookie.secure] is not strictly [true], [shouldSaveSession] answers
    by the [saveUninitialized] test alone, and a session with an id
    that passes it is handed to [store.set]. *)
Theorem secure_cookie_needs_an_encrypted_or_forwarded_request
    (options options_now : Options) (request : Request) :
  let out := onSend options options_now request in
  (secure (cookie options_now) = JBool true ->
   connection_encrypted request = false ->
   headers request !! "x-forwarded-proto" <> Some (JStr "https") ->
   trace out = [] /\ completion out = Done /\ request_after out = request) /\
  (secure (cookie options_now) <> JBool true ->
   forall sess,
     session request = Some sess ->
     shouldSaveSession request (cookie options_now) (saveUninitialized options_now) =
       Some (truthy (saveUninitialized options_now) || isSessionModified sess) /\
     (truthy (prop sess "sessionId") = true ->
      truthy (saveUninitialized options_now) || isSessionModified sess = true ->
      exists rest,
        trace out =
          StoreSet (prop sess "sessionId") sess (4 <=? set_length (store options))%nat
            :: rest)).
Proof.
  intros out. subst out. split.
  - intros Hsecure Hconn Hheader. rewrite saveSession_skips; [done|].
    intros sess Hsess _. rewrite (shouldSaveSession_attached _ _ _ sess Hsess).
    rewrite Hsecure, Hconn. simpl.
    assert (forwarded_https request = false) as ->.
    { unfold forwarded_https, strict_eq, prop. apply bool_decide_eq_false_2.
      destruct (headers request !! "x-forwarded-proto") as [v|]; simpl; congruence. }
    by destruct (negb (truthy (saveUninitialized options_now)) && negb (isSessionModified sess)).
  - intros Hsecure sess Hsess.
    assert (is_true (secure (cookie options_now)) = false) as Hnot.
    { destruct (secure (cookie options_now)) as [| |[|]| | |]; try reflexivity. congruence. }
    assert (shouldSaveSession request (cookie options_now) (saveUninitialized options_now) =
              Some (truthy (saveUninitialized options_now) || isSessionModified sess)) as Hshould.
    { rewrite (shouldSaveSession_attached _ _ _ sess Hsess), Hnot. simpl.
      by destruct (truthy (saveUninitialized options_now)), (isSessionModified sess). }
    split; [exact Hshould|].
    intros Hid Hgate. rewrite (saveSession_attached _ _ _ sess Hsess Hid), Hshould, Hgate.
    simpl. destruct (set_reply (store options_now) (prop sess "sessionId") sess); [by eexists|].
    destruct (prop sess "cookie"); by eexists.
Qed.

(** C10. Whether a session counts as modified depends on the number
    of its keys alone: two sessions with as many keys are classified
    alike; a session with exactly 4 keys is unmodified, and with
    [saveUninitialized] false the persist phase skips it; a session
    with any other number of keys is modified. *)
Theorem modified_is_decided_by_the_key_count
    (options options_now : Options) (request : Request) (sess : object) :
  session request = Some sess ->
  let out := onSend options options_now request in
  (forall other : object, size other = size sess ->
     isSessionModified other = isSessionModified sess) /\
  (size sess = 4%nat ->
     isSessionModified sess = false /\
     (truthy (saveUninitialized options_now) = false ->
      trace out = [] /\ completion out = Done /\ request_after out = request)) /\
  (size sess <> 4%nat -> isSessionModified sess = true).
Proof.
  intros Hsess out. subst out. unfold isSessionModified, keys_length. split_and!.
  - by intros other ->.
  - intros Hfour. rewrite Hfour. split; [reflexivity|]. intros Hsave.
    rewrite saveSession_skips; [done|].
    intros sess' Hsess' _. rewrite (shouldSaveSession_attached _ _ _ sess' Hsess').
    assert (sess' = sess) as -> by congruence.
    unfold isSessionModified, keys_length. rewrite Hsave, Hfour. reflexivity.
  - intros Hne. apply negb_true_iff. by apply Nat.eqb_neq.
Qed.

(** *** Destroying the session *)

(** C2, as amended. [destroySession] on a request with a session
    calls the store's [destroy] once with the session's id, sets the
    session of the request to [null] whatever [destroy] passes to its
    callback, and calls the caller's [done] with that: without an
    error on success, with the error on failure. *)
Theorem destroySession_clears_the_session_in_both_cases
    (request : Request) (sess : object) :
  session request = Some sess ->
  let out := destroySession request in
  let id := prop sess "sessionId" in
  trace out = [StoreDestroy id (3 <=? destroy_length (sessionStore request))%nat] /\
  session (request_after out) = None /\
  (destroy_reply (sessionStore request) id = None -> completion out = Done) /\
  (forall err, destroy_reply (sessionStore request) id = Some err ->
     completion out = DoneErr err).
Proof.
  intros Hsess out id. subst out id. unfold destroySession. rewrite Hsess. simpl.
  split_and!; try reflexivity.
  - by intros ->.
  - by intros err ->.
Qed.

(** *** The calling form of the store methods *)

(** C3, as amended. The hooks decide the calling form of [get], of
    [set] and of the [destroy] of an expired session when they are
    built, from the declared parameter counts of the store at that
    time ([get] and [destroy]: 3 or more, [set]: 4 or more, for the
    form with the request), whatever the store is when they run.
    [destroySession] decides the form of its [destroy] at each call,
    from the store the request holds at that time. *)
Theorem calling_forms (options options_now : Options) (entropy : Entropy) (now : Z)
    (request : Request) :
  let reg := register options in
  Forall (fun form => form = (3 <=? get_length (store options))%nat)
    (get_forms (trace (preValidation_hook reg options_now entropy now request))) /\
  Forall (fun form => form = (3 <=? destroy_length (store options))%nat)
    (destroy_forms (trace (preValidation_hook reg options_now entropy now request))) /\
  Forall (fun form => form = (4 <=? set_length (store options))%nat)
    (set_forms (trace (onSend_hook reg options_now request))) /\
  Forall (fun form => form = (3 <=? destroy_length (sessionStore request))%nat)
    (destroy_forms (trace (destroySession_decorator reg request))).
Proof.
  cbv zeta. unfold register.
  cbn [preValidation_hook onSend_hook destroySession_decorator].
  split_and!.
  - unfold preValidation.
    generalize (3 <=? get_length (store options))%nat,
               (3 <=? destroy_length (store options))%nat.
    intros getForm destroyForm. walk_handler; repeat constructor.
  - unfold preValidation.
    generalize (3 <=? get_length (store options))%nat,
               (3 <=? destroy_length (store options))%nat.
    intros getForm destroyForm. walk_handler; repeat constructor.
  - unfold onSend. generalize (4 <=? set_length (store options))%nat.
    intros setForm. walk_handler; repeat constructor.
  - unfold destroySession. generalize (3 <=? destroy_length (sessionStore request))%nat.
    intros destroyForm. walk_handler; repeat constructor.
Qed.

End PluginFacts.

(** ** Runs on the instance *)

Module Runs.
Import Demo.
#[local] Existing Instance collaborators.

(** C1, on a rotated secret. The secrets store that starts with the
    old secret and is given a new signing secret holds both, the old
    one as an unsigning secret, and the cookie verifies under the old
    secret. The resolve phase, configured with the signing secret,
    calls [unsign] once, with the signing secret: it does not go on to
    the old secret, never asks the session store for the session [abc]
    (which is there and has not expired) and attaches a new session. *)
Theorem rotated_secret_cookie_is_not_verified :
  let keys := [JStr newSecret; JStr oldSecret] in
  let opts := options newSecret liveStore (JBool true) (JBool true) in
  let req := request (Some oldCookie) (Some ∅) liveStore in
  let out := preValidation opts opts "fresh" 50 req in
  CookieSecretsStore.new (CookieSecretsStore.InitValue (JStr oldSecret))
    = CookieSecretsStore.Built [JStr oldSecret] /\
  CookieSecretsStore.addSigning (JStr newSecret) [JStr oldSecret]
    = CookieSecretsStore.Ok keys /\
  CookieSecretsStore.isSigning (JStr newSecret) keys = true /\
  CookieSecretsStore.contains (JStr oldSecret) keys = true /\
  unsign oldCookie oldSecret = Some "abc" /\
  get_reply liveStore "abc" = (None, Some storedSession) /\
  isExpired 50 storedSession = false /\
  trace out = [Unsign oldCookie newSecret] /\
  session (request_after out) = Some (Session (cookieOpts (JBool true)) newSecret None "fresh") /\
  completion out = Done.
Proof. intros keys opts req out. split_and!; reflexivity. Qed.

Lemma invalid_cookie_and_not_found_start_afresh_witness :
  let opts := options newSecret liveStore (JBool true) (JBool true) in
  let req := request (Some oldCookie) (Some ∅) liveStore in
  in_path_scope (cookie opts) req = true /\
  cookies req !! cookieName opts = Some oldCookie /\
  oldCookie <> "" /\
  unsign oldCookie newSecret = None /\
  session (request_after (preValidation opts opts "fresh" 50 req)) =
    session (request_after (preValidation opts opts "fresh" 50 (drop_cookie "sessionId" req))).
Proof.
  intros opts req.
  assert (oldCookie <> "") as Hne by discriminate.
  split_and!; [reflexivity | reflexivity | exact Hne | reflexivity |].
  destruct (invalid_cookie_and_not_found_start_afresh (H := collaborators)
              opts opts "fresh" 50 req oldCookie eq_refl eq_refl Hne)
    as (_ & Hinvalid & _).
  apply Hinvalid. reflexivity.
Defined.

Lemma expired_session_is_destroyed_then_replaced_witness :
  let opts := options oldSecret liveStore (JBool true) (JBool true) in
  let req := request (Some oldCookie) (Some ∅) liveStore in
  let out := preValidation opts opts "fresh" 150 req in
  storedSession !! "expires" = Some (JNum 100) /\
  100 < 150 /\
  trace out =
    [Unsign oldCookie oldSecret; StoreGet "abc" false; StoreDestroy (JStr oldCookie) false] /\
  session (request_after out) =
    Some (Session (cookieOpts (JBool true)) oldSecret None "fresh").
Proof.
  intros opts req out.
  assert (oldCookie <> "") as Hne by discriminate.
  destruct (expired_session_is_destroyed_then_replaced (H := collaborators)
              opts opts "fresh" 150 req oldCookie "abc" storedSession 100
              eq_refl eq_refl Hne eq_refl eq_refl eq_refl ltac:(lia))
    as (Htrace & _ & Hreplaced).
  split_and!; [reflexivity | lia | exact Htrace |].
  destruct (Hreplaced eq_refl) as [_ Hafter].
  subst out. rewrite Hafter. reflexivity.
Defined.

Lemma unmaterialized_session_is_never_persisted_witness :
  let opts := options oldSecret liveStore (JBool false) (JBool true) in
  let req := request None (Some ∅) liveStore in
  truthy (prop (∅ : object) "sessionId") = false /\
  trace (onSend opts opts req) = [].
Proof.
  intros opts req. split; [reflexivity|].
  apply (unmaterialized_session_is_never_persisted (H := collaborators) opts opts req).
  right. exists ∅. split; reflexivity.
Defined.

Lemma pristine_session_is_not_saved_witness :
  let opts := options oldSecret liveStore (JBool false) (JBool false) in
  let sess := Session (cookieOpts (JBool false)) oldSecret None "fresh" in
  let req := request None (Some sess) liveStore in
  dom sess = bookkeeping_keys /\
  truthy (prop sess "sessionId") = true /\
  trace (onSend opts opts req) = [].
Proof.
  intros opts sess req.
  assert (dom sess = bookkeeping_keys) as Hdom by reflexivity.
  split_and!; [exact Hdom | reflexivity |].
  apply (pristine_session_is_not_saved (H := collaborators) opts opts req sess
           eq_refl eq_refl Hdom).
Defined.

Lemma secure_cookie_needs_an_encrypted_or_forwarded_request_witness :
  let opts := options oldSecret liveStore (JBool true) (JBool true) in
  let req := request None (Some storedSession) liveStore in
  secure (cookie opts) = JBool true /\
  connection_encrypted req = false /\
  headers req !! "x-forwarded-proto" <> Some (JStr "https") /\
  trace (onSend opts opts req) = [].
Proof.
  intros opts req.
  assert (headers req !! "x-forwarded-proto" <> Some (JStr "https")) as Hheader
    by discriminate.
  split_and!; [reflexivity | reflexivity | exact Hheader |].
  destruct (secure_cookie_needs_an_encrypted_or_forwarded_request (H := collaborators)
              opts opts req) as [Hblocked _].
  apply (Hblocked eq_refl eq_refl Hheader).
Defined.

Lemma modified_is_decided_by_the_key_count_witness :
  let opts := options oldSecret liveStore (JBool false) (JBool false) in
  let req := request None (Some storedSession) liveStore in
  size storedSession = 5%nat /\
  isSessionModified storedSession = true.
Proof.
  intros opts req.
  assert (size storedSession = 5%nat) as Hsize by reflexivity.
  split; [exact Hsize|].
  destruct (modified_is_decided_by_the_key_count (H := collaborators)
              opts opts req storedSession eq_refl) as (_ & _ & Hother).
  apply Hother. rewrite Hsize. lia.
Defined.

Lemma destroySession_clears_the_session_in_both_cases_witness :
  let req := request None (Some storedSession) liveStore in
  let out := @destroySession collaborators req in
  trace out = [StoreDestroy (JStr "abc") false] /\
  session (request_after out) = None /\
  completion out = Done.
Proof.
  intros req out.
  destruct (destroySession_clears_the_session_in_both_cases (H := collaborators)
              req storedSession eq_refl) as (Htrace & Hcleared & Hdone & _).
  split_and!; [exact Htrace | exact Hcleared | exact (Hdone eq_refl)].
Defined.

(** C2 as it is written fails: when the store's [destroy] passes an
    error, [destroySession] hands the error to the caller and the
    session of the request is [null] all the same. *)
Lemma destroySession_clears_the_session_on_error :
  let req := request None (Some storedSession) (failingStore ioError) in
  let out := @destroySession collaborators req in
  destroy_reply (sessionStore req) (prop storedSession "sessionId") = Some ioError /\
  completion out = DoneErr ioError /\
  session req = Some storedSession /\
  session (request_after out) = None /\
  ~ (forall (r : Request) (sess : object) (err : Err),
       session r = Some sess ->
       destroy_reply (sessionStore r) (prop sess "sessionId") = Some err ->
       session (request_after (@destroySession collaborators r)) = session r).
Proof.
  intros req out. split_and!; try reflexivity.
  intros Hclaim. specialize (Hclaim req storedSession ioError eq_refl eq_refl).
  discriminate Hclaim.
Qed.

(** C3 as it is written fails for [destroySession]: registered with a
    store whose [destroy] declares two parameters, it uses the form
    with the request as soon as the store of the request declares
    three, while the hook built at registration keeps the short form on
    the same store. *)
Lemma destroySession_inspects_the_store_at_each_call :
  let opts := options oldSecret liveStore (JBool true) (JBool true) in
  let opts_now := options oldSecret patchedStore (JBool true) (JBool true) in
  let reg := register opts in
  let req := request (Some oldCookie) (Some storedSession) patchedStore in
  (3 <=? destroy_length (store opts))%nat = false /\
  destroy_forms (trace (destroySession_decorator reg req)) = [true] /\
  destroy_forms (trace (preValidation_hook reg opts_now "fresh" 150 req)) = [false] /\
  ~ (forall (o : @Options collaborators) (r : Request),
       Forall (fun form => form = (3 <=? destroy_length (store o))%nat)
         (destroy_forms (trace (destroySession_decorator (register o) r)))).
Proof.
  intros opts opts_now reg req. split_and!; try reflexivity.
  intros Hclaim. specialize (Hclaim opts req).
  apply Forall_cons_1 in Hclaim as [Hform _]. discriminate Hform.
Qed.

End Runs.

(** ** More on the secrets store *)

Module CookieSecretsStoreMore.
Import CookieSecretsStore CookieSecretsStoreFacts.

Lemma addUnsigning_fold (others : list jsval) : forall (x : jsval) (acc : t),
  fold_left (fun st key => addUnsigning key st) others (x :: acc)
    = x :: rev others ++ acc.
Proof.
  induction others as [|key others IH]; intros x acc; [reflexivity|].
  simpl. rewrite addUnsigning_cons, IH. by rewrite <- app_assoc.
Qed.

(** X1. The constructor, given an array whose first secret it
    accepts, puts that secret at position 0 and the other secrets
    after it in the reverse of their order in the array. *)
Theorem new_array_reverses_the_unsigning_secrets (first : jsval) (others : list jsval) :
  acceptable first = true ->
  new (InitArray (first :: others)) = Built (first :: rev others).
Proof.
  intros Hfirst. simpl. unfold addSigning. rewrite Hfirst. simpl.
  unfold splice. simpl. rewrite addUnsigning_fold. by rewrite app_nil_r.
Qed.

Lemma new_array_reverses_the_unsigning_secrets_witness :
  let a := JStr Demo.newSecret in
  acceptable a = true /\
  new (InitArray [a; JStr "b"; JStr "c"]) = Built [a; JStr "c"; JStr "b"].
Proof.
  intros a. split; [reflexivity|].
  exact (new_array_reverses_the_unsigning_secrets a [JStr "b"; JStr "c"] eq_refl).
Defined.

(** X2. The constructor builds a store exactly when the secret that
    becomes the signing one (the value itself, or the first element of
    the array) is a string of at least 32 characters; the other
    elements of the array are not checked. It gives back an error
    object, instead of throwing, exactly on the empty array. *)
Theorem new_checks_the_signing_secret_only (initSecrets : init) :
  ((exists store, new initSecrets = Built store) <->
   exists first, acceptable first = true /\
     (initSecrets = InitValue first \/
      exists others, initSecrets = InitArray (first :: others))) /\
  ((exists msg, new initSecrets = ReturnedError msg) <-> initSecrets = InitArray []).
Proof.
  split; split.
  - intros [store Hbuilt].
    destruct initSecrets as [[|first others] | secret0]; simpl in Hbuilt; [discriminate | |].
    + unfold addSigning in Hbuilt. destruct (acceptable first) eqn:Hk; [|discriminate].
      exists first. split; [exact Hk|]. right. by exists others.
    + unfold addSigning in Hbuilt. destruct (acceptable secret0) eqn:Hk; [|discriminate].
      exists secret0. split; [exact Hk|]. by left.
  - intros (first & Hk & [-> | [others ->]]); simpl; unfold addSigning; rewrite Hk; simpl;
      eauto.
  - intros [msg Hret].
    destruct initSecrets as [[|first others] | secret0]; simpl in Hret; [reflexivity | |].
    + unfold addSigning in Hret. destruct (acceptable first); discriminate.
    + unfold addSigning in Hret. destruct (acceptable secret0); discriminate.
  - intros ->. simpl. eauto.
Qed.

(** X3. [contains] tells whether the secret is anywhere in the store,
    and the signing secret is contained. *)
Theorem contains_is_membership (key : jsval) (store : t) :
  (contains key store = true <-> key ∈ store) /\
  (isSigning key store = true -> contains key store = true).
Proof.
  assert (contains key store = true <-> key ∈ store) as Hiff.
  { unfold contains. rewrite negb_true_iff, Z.eqb_neq, lastIndexOf_absent.
    split; [|tauto]. intros Hnn. by destruct (decide (key ∈ store)). }
  split; [exact Hiff|].
  intros Hsigning. apply Hiff. destruct store as [|x rest]; [discriminate|].
  apply isSigning_head in Hsigning as ->. apply list_elem_of_here.
Qed.

(** X4. [addUnsigning] on a store with a signing secret leaves that
    secret at position 0, puts the new secret (of any type and length)
    at position 1, and keeps every other secret. *)
Theorem addUnsigning_keeps_the_signing_secret (key : jsval) (store : t) :
  has_signing store ->
  head (addUnsigning key store) = head store /\
  addUnsigning key store !! 1%nat = Some key /\
  length (addUnsigning key store) = S (length store) /\
  (forall k, k ∈ addUnsigning key store <-> k = key \/ k ∈ store).
Proof.
  intros (x & rest & -> & _). rewrite addUnsigning_cons. split_and!; try reflexivity.
  intros k. rewrite !elem_of_cons. tauto.
Qed.

Lemma addUnsigning_keeps_the_signing_secret_witness :
  let store := [JStr Demo.newSecret] in
  has_signing store /\
  addUnsigning (JStr "legacy") store !! 1%nat = Some (JStr "legacy").
Proof.
  intros store.
  assert (has_signing store) as Hs by (exists (JStr Demo.newSecret), []; split; reflexivity).
  split; [exact Hs|].
  destruct (addUnsigning_keeps_the_signing_secret (JStr "legacy") store Hs)
    as (_ & Hpos & _).
  exact Hpos.
Defined.

(** X5. [remove] of a secret that is not in the store changes
    nothing and throws nothing. *)
Theorem remove_of_an_absent_secret (key : jsval) (store : t) :
  key ∉ store -> remove key store = Ok store.
Proof.
  intros Habsent. unfold remove.
  apply lastIndexOf_absent in Habsent. by rewrite Habsent.
Qed.

Lemma remove_of_an_absent_secret_witness :
  (JStr "unknown" ∉ [JStr Demo.newSecret; JStr Demo.oldSecret]) /\
  remove (JStr "unknown") [JStr Demo.newSecret; JStr Demo.oldSecret]
    = Ok [JStr Demo.newSecret; JStr Demo.oldSecret].
Proof.
  assert (JStr "unknown" ∉ [JStr Demo.newSecret; JStr Demo.oldSecret]) as Habsent.
  { rewrite !elem_of_cons. intros [Heq | [Heq | Hin]]; [discriminate | discriminate |].
    by apply elem_of_nil in Hin. }
  split; [exact Habsent|].
  exact (remove_of_an_absent_secret _ _ Habsent).
Defined.

(** X6. A [remove] that succeeds takes away at most one entry, one
    exactly when the secret was contained, and every other secret is in
    the store afterwards exactly if it was before. *)
Theorem remove_deletes_one_occurrence (key : jsval) (store store' : t) :
  remove key store = Ok store' ->
  length store' = (length store - (if contains key store then 1 else 0))%nat /\
  (forall k, k <> key -> (k ∈ store' <-> k ∈ store)).
Proof.
  intros Hremove.
  apply remove_ok_inv in Hremove as [[Habsent ->] | (n & Hpos & Hn & _ & ->)].
  - apply lastIndexOf_absent in Habsent. unfold contains. rewrite Habsent. simpl.
    split; [lia | tauto].
  - assert (contains key store = true) as ->.
    { unfold contains. apply negb_true_iff, Z.eqb_neq.
      rewrite lastIndexOf_absent. intros Habsent. apply Habsent.
      by eapply list_elem_of_lookup_2. }
    split.
    + apply length_delete. by exists key.
    + intros k Hk. rewrite delete_take_drop.
      rewrite <- (take_drop_middle store n key Hn) at 3.
      rewrite !elem_of_app, elem_of_cons. tauto.
Qed.

Lemma remove_deletes_one_occurrence_witness :
  let a := JStr Demo.newSecret in
  let b := JStr Demo.oldSecret in
  remove b [a; b; b] = Ok [a; b] /\
  length [a; b] = (length [a; b; b] - (if contains b [a; b; b] then 1 else 0))%nat.
Proof.
  intros a b.
  assert (remove b [a; b; b] = Ok [a; b]) as Hremove by reflexivity.
  split; [exact Hremove|].
  exact (proj1 (remove_deletes_one_occurrence b [a; b; b] [a; b] Hremove)).
Defined.

(** X7. [remove] of a secret that is in the store once, and not at
    position 0, takes it out: the store no longer contains it. *)
Theorem remove_of_a_single_unsigning_secret (key : jsval) (before after : t) :
  before <> [] -> key ∉ before -> key ∉ after ->
  remove key (before ++ key :: after) = Ok (before ++ after) /\
  contains key (before ++ after) = false.
Proof.
  intros Hne Hbefore Hafter. split.
  - rewrite <- (delete_middle before after key).
    apply remove_later_occurrence.
    + destruct before; [done | simpl; lia].
    + by apply list_lookup_middle.
    + intros m Hm Hlookup. rewrite lookup_app_r in Hlookup by lia.
      destruct (m - length before)%nat as [|i] eqn:Hi; [lia|]. simpl in Hlookup.
      apply Hafter. by eapply list_elem_of_lookup_2.
  - unfold contains. apply negb_false_iff, Z.eqb_eq, lastIndexOf_absent.
    rewrite elem_of_app. tauto.
Qed.

Lemma remove_of_a_single_unsigning_secret_witness :
  let a := JStr Demo.newSecret in
  let b := JStr Demo.oldSecret in
  [a] <> [] /\ (b ∉ [a]) /\ (b ∉ ([] : t)) /\
  remove b [a; b] = Ok [a] /\ contains b [a] = false.
Proof.
  intros a b.
  assert ([a] <> []) as Hne by discriminate.
  assert (b ∉ [a]) as Hbefore by (rewrite list_elem_of_singleton; discriminate).
  assert (b ∉ ([] : t)) as Hafter by apply not_elem_of_nil.
  split_and!; [exact Hne | exact Hbefore | exact Hafter | |];
    apply (remove_of_a_single_unsigning_secret b [a] [] Hne Hbefore Hafter).
Defined.

(** X8. Rotation: on a store whose signing secret occurs once,
    [addSigning] of an accepted secret followed by [remove] of the old
    signing secret succeeds and leaves the new secret in its place,
    the unsigning secrets untouched. *)
Theorem rotation_replaces_the_signing_secret (old new_ : jsval) (rest : t) :
  acceptable new_ = true -> old ∉ rest ->
  addSigning new_ (old :: rest) = Ok (new_ :: old :: rest) /\
  remove old (new_ :: old :: rest) = Ok (new_ :: rest) /\
  run [AddSigning new_; Remove old] (old :: rest) = new_ :: rest.
Proof.
  intros Hnew Hrest.
  assert (remove old (new_ :: old :: rest) = Ok (new_ :: rest)) as Hremove.
  { apply (remove_later_occurrence old (new_ :: old :: rest) 1); [lia | reflexivity |].
    intros [|[|m]] Hm Hlookup; [lia | lia |]. simpl in Hlookup.
    apply Hrest. by eapply list_elem_of_lookup_2. }
  split_and!.
  - by apply addSigning_accepts.
  - exact Hremove.
  - unfold run. simpl. rewrite (addSigning_accepts _ _ Hnew). by rewrite Hremove.
Qed.

Lemma rotation_replaces_the_signing_secret_witness :
  let old := JStr Demo.oldSecret in
  let new_ := JStr Demo.newSecret in
  acceptable new_ = true /\ (old ∉ [JStr "legacy"]) /\
  run [AddSigning new_; Remove old] [old; JStr "legacy"] = [new_; JStr "legacy"].
Proof.
  intros old new_.
  assert (old ∉ [JStr "legacy"]) as Hrest by (rewrite list_elem_of_singleton; discriminate).
  split_and!; [reflexivity | exact Hrest |].
  apply (rotation_replaces_the_signing_secret old new_ [JStr "legacy"] eq_refl Hrest).
Defined.

(** X9. Only [addSigning] changes the signing secret: after any
    sequence of [addUnsigning] and [remove] calls, whether they throw
    or not, position 0 holds the secret it held before. *)
Theorem only_addSigning_changes_the_signing_secret (ms : list mutation) (store : t) :
  has_signing store ->
  Forall (fun m => is_addSigning m = false) ms ->
  head (run ms store) = head store.
Proof.
  revert store. induction ms as [|m ms IH]; intros store Hs Hms; [reflexivity|].
  apply Forall_cons in Hms as [Hm Hms]. unfold run. simpl.
  destruct (apply m store) as [store'|msg] eqn:Happly.
  - transitivity (head store').
    + apply IH; [by eapply apply_has_signing | exact Hms].
    + destruct m as [key | key | key]; simpl in *; [discriminate | |].
      * injection Happly as <-. destruct Hs as (x & rest & -> & _). reflexivity.
      * by eapply remove_keeps_head.
  - by apply IH.
Qed.

Lemma only_addSigning_changes_the_signing_secret_witness :
  let a := JStr Demo.newSecret in
  let b := JStr Demo.oldSecret in
  has_signing [a; b] /\
  head (run [Remove a; AddUnsigning (JStr "x"); Remove b] [a; b]) = Some a.
Proof.
  intros a b.
  assert (has_signing [a; b]) as Hs by (exists a, [b]; split; reflexivity).
  split; [exact Hs|].
  apply (only_addSigning_changes_the_signing_secret
           [Remove a; AddUnsigning (JStr "x"); Remove b] [a; b] Hs).
  repeat constructor.
Defined.

End CookieSecretsStoreMore.

(** ** More on the hooks *)

Section PluginMore.
Context `{Collaborators}.

(** *** The resolve phase *)

(** X10. The resolve phase never calls [store.set] and never sets a
    cookie. *)
Theorem resolve_phase_never_saves_or_sets_a_cookie
    (options options_now : Options) (entropy : Entropy) (now : Z) (request : Request) :
  Forall (fun e => is_store_set e = false /\ is_set_cookie e = false)
    (trace (preValidation options options_now entropy now request)).
Proof.
  unfold preValidation.
  generalize (3 <=? get_length (store options))%nat,
             (3 <=? destroy_length (store options))%nat.
  intros getForm destroyForm. walk_handler; repeat constructor.
Qed.

(** X11. A request under the cookie path whose cookie verifies and
    whose session the store finds, not expired, gets that session
    attached, rebuilt by the [Session] constructor; the hook has called
    [unsign] and [get] and nothing else, and ends without an error. *)
Theorem live_session_is_attached
    (options options_now : Options) (entropy : Entropy) (now : Z)
    (request : Request) (sessionId id : string) (sess : object) :
  in_path_scope (cookie options) request = true ->
  cookies request !! cookieName options_now = Some sessionId ->
  sessionId <> "" ->
  cookieSignature_unsign sessionId (secret options) = Some id ->
  get_reply (store options_now) id = (None, Some sess) ->
  isExpired now sess = false ->
  preValidation options options_now entropy now request =
    {| request_after :=
         set_session request
           (Some (new_Session (cookie options) (secret options) (Some sess) entropy));
       trace := [Unsign sessionId (secret options);
                 StoreGet id (3 <=? get_length (store options))%nat];
       completion := Done |}.
Proof.
  intros Hscope Hcookie Hne Hunsign Hget Hlive.
  rewrite (handleSession_cookie _ _ _ _ _ sessionId Hscope Hcookie Hne).
  cbv zeta. by rewrite Hunsign, Hget, Hlive.
Qed.

(** X12. The resolve phase asks the store only for an id that
    [unsign] returned for the cookie of the request under
    [options.secret]. *)
Theorem store_is_asked_only_for_verified_ids
    (options options_now : Options) (entropy : Entropy) (now : Z)
    (request : Request) (id : string) (form : bool) :
  StoreGet id form ∈ trace (preValidation options options_now entropy now request) ->
  exists sessionId,
    cookies request !! cookieName options_now = Some sessionId /\
    cookieSignature_unsign sessionId (secret options) = Some id.
Proof.
  destruct (in_path_scope (cookie options) request) eqn:Hscope;
    [|rewrite handleSession_out_of_scope by exact Hscope; simpl;
      intros Hin; by apply elem_of_nil in Hin].
  destruct (cookies request !! cookieName options_now) as [sessionId|] eqn:Hcookie;
    [|rewrite handleSession_no_cookie by auto; simpl;
      intros Hin; by apply elem_of_nil in Hin].
  destruct (decide (sessionId = "")) as [->|Hne];
    [rewrite handleSession_no_cookie by auto; simpl;
     intros Hin; by apply elem_of_nil in Hin|].
  rewrite (handleSession_cookie _ _ _ _ _ sessionId Hscope Hcookie Hne). cbv zeta.
  destruct (cookieSignature_unsign sessionId (secret options)) as [id'|] eqn:Hunsign.
  - intros Hin. exists sessionId. split; [reflexivity|].
    assert (forall tr, StoreGet id form ∈ tr ->
              Forall (fun e => is_store_get e = true -> exists w, e = StoreGet id' w) tr ->
              id = id') as Honly.
    { intros tr Htr Hall. rewrite Forall_forall in Hall.
      destruct (Hall _ Htr eq_refl) as [w Hw]. congruence. }
    rewrite Hunsign. f_equal. symmetry. apply (Honly _ Hin). clear Hin Honly.
    destruct (get_reply (store options_now) id') as [[err|] [sess|]]; simpl;
      walk_handler; repeat constructor; try discriminate; intros _; by eexists.
  - simpl. intros Hin. apply elem_of_cons in Hin as [Hin|Hin]; [discriminate|].
    by apply elem_of_nil in Hin.
Qed.

(** X13. How the resolve phase leaves the request: when it calls
    [done(err)] the request is as it was; when it calls [done()] on a
    request under the cookie path, the session of the request is one
    the [Session] constructor built; a request that is not under the
    cookie path is left alone, without a call to a collaborator. *)
Theorem resolve_phase_outcomes
    (options options_now : Options) (entropy : Entropy) (now : Z) (request : Request) :
  let out := preValidation options options_now entropy now request in
  (forall err, completion out = DoneErr err -> request_after out = request) /\
  (completion out = Done ->
   in_path_scope (cookie options) request = true ->
   exists prevSession,
     request_after out =
       set_session request
         (Some (new_Session (cookie options) (secret options) prevSession entropy))) /\
  (in_path_scope (cookie options) request = false ->
   request_after out = request /\ trace out = [] /\ completion out = Done).
Proof.
  cbv zeta. split_and!.
  - intros err. unfold preValidation. walk_handler; intros Herr;
      first [discriminate Herr | reflexivity].
  - intros Hdone Hscope. revert Hdone. unfold preValidation. rewrite Hscope.
    walk_handler; intros Hdone; first [discriminate Hdone | by eexists].
  - intros Hscope. by rewrite handleSession_out_of_scope.
Qed.

(** *** The persist phase *)

Lemma saveSession_sets_iff (options options_now : Options) (request : Request)
    (sess : object) :
  session request = Some sess ->
  truthy (prop sess "sessionId") = true ->
  Exists (fun e => is_store_set e = true) (trace (onSend options options_now request)) <->
  shouldSaveSession request (cookie options_now) (saveUninitialized options_now) = Some true.
Proof.
  intros Hsess Hid. rewrite (saveSession_attached _ _ _ sess Hsess Hid).
  destruct (shouldSaveSession request (cookie options_now) (saveUninitialized options_now))
    as [[|]|]; simpl.
  - split; [reflexivity|]. intros _.
    destruct (set_reply (store options_now) (prop sess "sessionId") sess); simpl;
      [by constructor|].
    destruct (prop sess "cookie"); simpl; by constructor.
  - split; [|discriminate]. intros Hex. by apply Exists_nil in Hex.
  - split; [|discriminate]. intros Hex. by apply Exists_nil in Hex.
Qed.

(** X14. The persist phase calls [store.set] exactly when the request
    has a session with a truthy [sessionId], [saveUninitialized] is
    truthy or the session has a number of keys other than 4, and the
    cookie is not strictly secure, or the connection is encrypted, or
    the request says it was forwarded from https. *)
Theorem store_set_is_called_exactly_when
    (options options_now : Options) (request : Request) :
  Exists (fun e => is_store_set e = true) (trace (onSend options options_now request)) <->
  exists sess,
    session request = Some sess /\
    truthy (prop sess "sessionId") = true /\
    truthy (saveUninitialized options_now) || isSessionModified sess = true /\
    negb (is_true (secure (cookie options_now)))
      || connection_encrypted request || forwarded_https request = true.
Proof.
  destruct (session request) as [sess|] eqn:Hsess.
  - destruct (truthy (prop sess "sessionId")) eqn:Hid.
    + rewrite (saveSession_sets_iff _ _ _ sess Hsess Hid).
      rewrite (shouldSaveSession_attached _ _ _ sess Hsess).
      split.
      * intros Hshould. exists sess. split_and!; try reflexivity; try exact Hid;
          destruct (truthy (saveUninitialized options_now)), (isSessionModified sess),
            (is_true (secure (cookie options_now))), (connection_encrypted request),
            (forwarded_https request); simpl in *; congruence.
      * intros (sess' & Heq & _ & Hgate & Hsecure).
        assert (sess' = sess) as -> by congruence.
        destruct (truthy (saveUninitialized options_now)), (isSessionModified sess),
          (is_true (secure (cookie options_now))), (connection_encrypted request),
          (forwarded_https request); simpl in *; congruence.
    + split.
      * unfold onSend. rewrite Hsess, Hid. simpl. intros Hex. by apply Exists_nil in Hex.
      * intros (sess' & Heq & Hid' & _). congruence.
  - split.
    + unfold onSend. rewrite Hsess. simpl. intros Hex. by apply Exists_nil in Hex.
    + intros (sess' & Heq & _). congruence.
Qed.

(** X15. When [store.set] passes an error, the persist phase hands
    it to [done] and sets no cookie. *)
Theorem failed_set_sets_no_cookie
    (options options_now : Options) (request : Request) (sess : object) (err : Err) :
  session request = Some sess ->
  truthy (prop sess "sessionId") = true ->
  shouldSaveSession request (cookie options_now) (saveUninitialized options_now)
    = Some true ->
  set_reply (store options_now) (prop sess "sessionId") sess = Some err ->
  onSend options options_now request =
    {| request_after := request;
       trace := [StoreSet (prop sess "sessionId") sess (4 <=? set_length (store options))%nat];
       completion := DoneErr err |}.
Proof.
  intros Hsess Hid Hshould Hset.
  rewrite (saveSession_attached _ _ _ sess Hsess Hid). by rewrite Hshould, Hset.
Qed.

(** X16. A cookie is set only as the last step of a successful save:
    whenever the persist phase sets a cookie, the request has a
    session, [store.set] was called just before with that session
    under its [sessionId] and passed no error, the cookie is named
    [options.cookieName], its value is the [encryptedSessionId] of the
    session, and the hook ends without an error. *)
Theorem cookie_is_set_only_after_a_successful_set
    (options options_now : Options) (request : Request)
    (name : string) (value cookieObj : jsval) :
  SetCookie name value cookieObj ∈ trace (onSend options options_now request) ->
  exists sess,
    session request = Some sess /\
    set_reply (store options_now) (prop sess "sessionId") sess = None /\
    name = cookieName options_now /\
    value = prop sess "encryptedSessionId" /\
    cookieObj = prop sess "cookie" /\
    trace (onSend options options_now request) =
      [StoreSet (prop sess "sessionId") sess (4 <=? set_length (store options))%nat;
       SetCookie name value cookieObj] /\
    completion (onSend options options_now request) = Done.
Proof.
  unfold onSend. generalize (4 <=? set_length (store options))%nat. intros setForm.
  destruct (session request) as [sess|]; simpl;
    [|intros Hin; by apply elem_of_nil in Hin].
  destruct (truthy (prop sess "sessionId")); simpl;
    [|intros Hin; by apply elem_of_nil in Hin].
  destruct (shouldSaveSession request (cookie options_now) (saveUninitialized options_now))
    as [[|]|]; simpl; try (intros Hin; by apply elem_of_nil in Hin).
  destruct (set_reply (store options_now) (prop sess "sessionId") sess) eqn:Hset; simpl.
  - intros Hin. apply elem_of_cons in Hin as [Hin|Hin]; [discriminate|].
    by apply elem_of_nil in Hin.
  - destruct (prop sess "cookie") eqn:Hcookie; simpl; intros Hin;
      apply elem_of_cons in Hin as [Hin|Hin]; try discriminate;
      try (by apply elem_of_nil in Hin).
    apply elem_of_cons in Hin as [Hin|Hin]; [|by apply elem_of_nil in Hin].
    injection Hin as -> -> ->. exists sess. by split_and!.
Qed.

(** X17. A request that is not under the cookie path, and comes with
    the empty session object the plugin decorates requests with (or
    any session without an id), goes through both phases without a
    call to the signature library, the store or the reply. *)
Theorem request_outside_the_path_is_left_alone
    (options options_now : Options) (entropy : Entropy) (now : Z) (request : Request) :
  in_path_scope (cookie options) request = false ->
  (forall sess, session request = Some sess -> truthy (prop sess "sessionId") = false) ->
  let resolved := preValidation options options_now entropy now request in
  let persisted := onSend options options_now (request_after resolved) in
  trace resolved = [] /\ trace persisted = [] /\
  completion persisted = Done /\ request_after persisted = request.
Proof.
  intros Hscope Hid. cbv zeta. rewrite handleSession_out_of_scope by exact Hscope.
  simpl. rewrite saveSession_skips; [done|].
  intros sess Hsess Htruthy. rewrite (Hid sess Hsess) in Htruthy. discriminate.
Qed.

(** X18. First visit that is saved: a request under the cookie path
    without a cookie, when the new session has an id and a cookie
    object, [saveUninitialized] is truthy, the cookie is not strictly
    secure and [store.set] passes no error. The resolve phase calls
    nothing; the persist phase stores the new session under its id and
    then sets the cookie [options.cookieName] to its
    [encryptedSessionId]. *)
Theorem first_visit_is_saved_and_gets_a_cookie
    (options options_now : Options) (entropy : Entropy) (now : Z)
    (request : Request) (cookieRef : positive) :
  let fresh := new_Session (cookie options) (secret options) None entropy in
  in_path_scope (cookie options) request = true ->
  cookies request !! cookieName options_now = None ->
  truthy (prop fresh "sessionId") = true ->
  prop fresh "cookie" = JObj cookieRef ->
  truthy (saveUninitialized options_now) = true ->
  is_true (secure (cookie options_now)) = false ->
  set_reply (store options_now) (prop fresh "sessionId") fresh = None ->
  let resolved := preValidation options options_now entropy now request in
  let persisted := onSend options options_now (request_after resolved) in
  trace resolved = [] /\
  trace persisted =
    [StoreSet (prop fresh "sessionId") fresh (4 <=? set_length (store options))%nat;
     SetCookie (cookieName options_now) (prop fresh "encryptedSessionId") (JObj cookieRef)] /\
  completion persisted = Done.
Proof.
  intros fresh Hscope Hcookie Hid Hobj Hsave Hsecure Hset. cbv zeta.
  rewrite handleSession_no_cookie by auto. unfold newSession. simpl. fold fresh.
  split; [reflexivity|].
  rewrite (saveSession_attached options options_now
             (set_session request (Some fresh)) fresh eq_refl Hid).
  rewrite (shouldSaveSession_attached (set_session request (Some fresh))
             (cookie options_now) (saveUninitialized options_now) fresh eq_refl).
  rewrite Hsave, Hsecure. simpl. rewrite Hset, Hobj. by split.
Qed.

(** X19. First visit that is not saved: with [saveUninitialized]
    falsy, a request under the cookie path without a cookie, whose new
    session has 4 keys, goes through both phases without a call to the
    store and without a cookie. *)
Theorem first_visit_is_not_saved_when_saveUninitialized_is_off
    (options options_now : Options) (entropy : Entropy) (now : Z) (request : Request) :
  let fresh := new_Session (cookie options) (secret options) None entropy in
  in_path_scope (cookie options) request = true ->
  cookies request !! cookieName options_now = None ->
  size fresh = 4%nat ->
  truthy (saveUninitialized options_now) = false ->
  let resolved := preValidation options options_now entropy now request in
  let persisted := onSend options options_now (request_after resolved) in
  trace resolved = [] /\ trace persisted = [] /\ completion persisted = Done.
Proof.
  intros fresh Hscope Hcookie Hsize Hsave. cbv zeta.
  rewrite handleSession_no_cookie by auto. unfold newSession. simpl. fold fresh.
  split; [reflexivity|]. rewrite saveSession_skips; [done|].
  intros sess Hsess _. simpl in Hsess. injection Hsess as <-.
  rewrite (shouldSaveSession_attached (set_session request (Some fresh))
             (cookie options_now) (saveUninitialized options_now) fresh eq_refl).
  unfold isSessionModified, keys_length. by rewrite Hsave, Hsize.
Qed.

(** *** Destroying the session *)

(** X20. After [destroySession] the session is gone for the rest of
    the request: a second [destroySession] throws before it reaches
    the store, and the persist phase calls nothing, so the store's
    [destroy] is called once and no cookie is set. *)
Theorem destroyed_session_stays_destroyed
    (options options_now : Options) (request : Request) (sess : object) :
  session request = Some sess ->
  let destroyed := request_after (destroySession request) in
  destroySession destroyed =
    {| request_after := destroyed; trace := []; completion := TypeError |} /\
  onSend options options_now destroyed =
    {| request_after := destroyed; trace := []; completion := Done |}.
Proof.
  intros Hsess. cbv zeta.
  assert (request_after (destroySession request) = set_session request None) as ->
    by (unfold destroySession; by rewrite Hsess).
  split; [reflexivity|]. by apply saveSession_skips.
Qed.

(** *** Setting up *)

(** X21. [checkOptions] lets a string secret through exactly when it
    has at least 32 characters, reports the empty string as a missing
    secret, and lets through every truthy secret that has no [length]
    (a non-zero number, [true], an object without that property). *)
Theorem checkOptions_accepts (objLength : positive -> option Z) (secretValue : jsval) :
  (forall s, secretValue = JStr s ->
     (checkOptions objLength secretValue = None <-> (32 <= String.length s)%nat) /\
     (checkOptions objLength secretValue = Some "the secret option is required!"
        <-> s = "")) /\
  (truthy secretValue = false ->
     checkOptions objLength secretValue = Some "the secret option is required!") /\
  (truthy secretValue = true -> length_of objLength secretValue = None ->
     checkOptions objLength secretValue = None).
Proof.
  split_and!.
  - intros s ->. unfold checkOptions. simpl.
    destruct (String.eqb_spec s "") as [->|Hne]; simpl.
    + split; [split; [discriminate | simpl; lia] | done].
    + destruct (Z.ltb_spec (Z.of_nat (String.length s)) 32) as [Hlt|Hge].
      * split; split; first [discriminate | lia | done].
      * split; split; first [discriminate | lia | done].
  - intros Hfalsy. unfold checkOptions. by rewrite Hfalsy.
  - intros Htruthy Hlen. unfold checkOptions. by rewrite Htruthy, Hlen.
Qed.

(** X22. What [ensureDefaults] leaves in place: [cookie.secure] ends
    up strictly [true] exactly when it was missing or [true];
    [saveUninitialized] ends up falsy exactly when it was given a falsy
    value other than [undefined]; a non-empty [cookieName] and a given
    store are kept, and the cookie name is never empty. *)
Theorem ensureDefaults_fills_only_what_is_missing (newStore : Store) (raw : RawOptions) :
  let options := ensureDefaults newStore raw in
  (is_true (secure (cookie options)) = true <->
     forall c, raw_cookie raw = Some c -> secure c = JUndefined \/ secure c = JBool true) /\
  (truthy (saveUninitialized options) = false <->
     raw_saveUninitialized raw <> JUndefined /\
     truthy (raw_saveUninitialized raw) = false) /\
  cookieName options <> "" /\
  (forall name, raw_cookieName raw = Some name -> name <> "" -> cookieName options = name) /\
  (forall st, raw_store raw = Some st -> store options = st) /\
  (raw_store raw = None -> store options = newStore) /\
  secret options = raw_secret raw.
Proof.
  cbv zeta. unfold ensureDefaults. simpl. split_and!.
  - destruct (raw_cookie raw) as [c|]; simpl.
    + unfold option_, strict_eq. case_bool_decide as Hundef.
      * split; [intros _ c' [= <-]; by left | done].
      * split.
        -- intros Htrue c' [= <-]. right.
           destruct (secure c) as [| |[|]| | |]; try discriminate. reflexivity.
        -- intros Hall. destruct (Hall c eq_refl) as [Hu | Ht]; [done|]. by rewrite Ht.
    + split; [intros _ c' [=] | done].
  - unfold option_, strict_eq. case_bool_decide as Hundef.
    + split; [discriminate | intros [Hne _]; done].
    + tauto.
  - destruct (raw_cookieName raw) as [name|]; [|discriminate].
    destruct (String.eqb_spec name ""); [discriminate | done].
  - intros name -> Hne. apply String.eqb_neq in Hne. by rewrite Hne.
  - by intros st ->.
  - by intros ->.
  - reflexivity.
Qed.

(** X23. With the defaults, sessions are saved over https only: when
    the plugin is registered with options that leave [cookie.secure]
    out, a request whose connection is not encrypted and whose
    [x-forwarded-proto] is not [https] goes through the persist phase
    without a call to the store and without a cookie. *)
Theorem default_options_save_over_https_only
    (objLength : positive -> option Z) (secretValue : Secret -> jsval)
    (newStore : Store) (raw : RawOptions) (reg : Registration) (request : Request) :
  session_plugin objLength secretValue newStore raw = NextOk reg ->
  (forall c, raw_cookie raw = Some c -> secure c = JUndefined) ->
  connection_encrypted request = false ->
  forwarded_https request = false ->
  let out := onSend_hook reg (ensureDefaults newStore raw) request in
  trace out = [] /\ completion out = Done /\ request_after out = request.
Proof.
  intros Hreg Hsecure Hconn Hfwd. unfold session_plugin in Hreg.
  destruct (checkOptions objLength (secretValue (raw_secret raw))); [discriminate|].
  injection Hreg as <-. cbv zeta. unfold register. cbn [onSend_hook].
  rewrite saveSession_skips; [done|].
  intros sess Hsess _. rewrite (shouldSaveSession_attached _ _ _ sess Hsess).
  rewrite Hconn, Hfwd.
  assert (secure (cookie (ensureDefaults newStore raw)) = JBool true) as ->.
  { unfold ensureDefaults. simpl. destruct (raw_cookie raw) as [c|]; simpl; [|reflexivity].
    by rewrite (Hsecure c eq_refl). }
  simpl. by destruct (negb _ && negb _).
Qed.

End PluginMore.

(** ** More runs on the instance *)

Module MoreRuns.
Import Demo Samples.
#[local] Existing Instance collaborators.

Lemma live_session_is_attached_witness :
  let opts := options oldSecret liveStore (JBool true) (JBool true) in
  let req := request (Some oldCookie) (Some ∅) liveStore in
  isExpired 50 storedSession = false /\
  trace (preValidation opts opts "fresh" 50 req) =
    [Unsign oldCookie oldSecret; StoreGet "abc" false] /\
  session (request_after (preValidation opts opts "fresh" 50 req)) =
    Some (Session (cookieOpts (JBool true)) oldSecret (Some storedSession) "fresh").
Proof.
  intros opts req.
  assert (oldCookie <> "") as Hne by discriminate.
  pose proof (live_session_is_attached opts opts "fresh" 50 req oldCookie "abc"
                storedSession eq_refl eq_refl Hne eq_refl eq_refl eq_refl) as Hlive.
  split_and!; [reflexivity | by rewrite Hlive | by rewrite Hlive].
Defined.

Lemma store_is_asked_only_for_verified_ids_witness :
  let opts := options oldSecret liveStore (JBool true) (JBool true) in
  let req := request (Some oldCookie) (Some ∅) liveStore in
  StoreGet "abc" false ∈ trace (preValidation opts opts "fresh" 50 req) /\
  exists sessionId,
    cookies req !! "sessionId" = Some sessionId /\ unsign sessionId oldSecret = Some "abc".
Proof.
  intros opts req.
  assert (StoreGet "abc" false ∈ trace (preValidation opts opts "fresh" 50 req)) as Hin.
  { apply list_elem_of_further, list_elem_of_here. }
  split; [exact Hin|].
  exact (store_is_asked_only_for_verified_ids opts opts "fresh" 50 req "abc" false Hin).
Defined.

Lemma failed_set_sets_no_cookie_witness :
  let opts := options oldSecret readOnlyStore (JBool false) (JBool true) in
  let req := request None (Some storedSession) readOnlyStore in
  set_reply readOnlyStore (JStr "abc") storedSession = Some ioError /\
  completion (onSend opts opts req) = DoneErr ioError /\
  trace (onSend opts opts req) = [StoreSet (JStr "abc") storedSession false].
Proof.
  intros opts req.
  pose proof (failed_set_sets_no_cookie opts opts req storedSession ioError
                eq_refl eq_refl eq_refl eq_refl) as Hfailed.
  split_and!; [reflexivity | by rewrite Hfailed | by rewrite Hfailed].
Defined.

Lemma cookie_is_set_only_after_a_successful_set_witness :
  let opts := options oldSecret liveStore (JBool false) (JBool true) in
  let req := request None (Some storedSession) liveStore in
  let cookieValue := JStr (sign "abc" oldSecret) in
  SetCookie "sessionId" cookieValue (JObj 7) ∈ trace (onSend opts opts req) /\
  trace (onSend opts opts req) =
    [StoreSet (JStr "abc") storedSession false;
     SetCookie "sessionId" cookieValue (JObj 7)].
Proof.
  intros opts req cookieValue.
  assert (SetCookie "sessionId" cookieValue (JObj 7) ∈ trace (onSend opts opts req)) as Hin.
  { apply list_elem_of_further, list_elem_of_here. }
  split; [exact Hin|].
  destruct (cookie_is_set_only_after_a_successful_set opts opts req
              "sessionId" cookieValue (JObj 7) Hin)
    as (sess & Hsess & _ & _ & _ & _ & Htrace & _).
  injection Hsess as <-. exact Htrace.
Defined.

Lemma request_outside_the_path_is_left_alone_witness :
  let req := request (Some oldCookie) (Some ∅) liveStore in
  in_path_scope (cookie scopedOptions) req = false /\
  trace (preValidation scopedOptions scopedOptions "fresh" 50 req) = [] /\
  trace (onSend scopedOptions scopedOptions
           (request_after (preValidation scopedOptions scopedOptions "fresh" 50 req))) = [].
Proof.
  intros req.
  assert (forall sess : object, session req = Some sess ->
            truthy (prop sess "sessionId") = false) as Hid.
  { intros sess [= <-]. reflexivity. }
  destruct (request_outside_the_path_is_left_alone scopedOptions scopedOptions
              "fresh" 50 req eq_refl Hid) as (Hresolved & Hpersisted & _).
  split_and!; [reflexivity | exact Hresolved | exact Hpersisted].
Defined.

Lemma first_visit_is_saved_and_gets_a_cookie_witness :
  let opts := options oldSecret liveStore (JBool false) (JBool true) in
  let req := request None (Some ∅) liveStore in
  let persisted := onSend opts opts (request_after (preValidation opts opts "fresh" 50 req)) in
  prop freshSession "cookie" = JObj 1 /\
  trace persisted =
    [StoreSet (JStr "fresh") freshSession false;
     SetCookie "sessionId" (JStr (sign "fresh" oldSecret)) (JObj 1)].
Proof.
  intros opts req persisted.
  destruct (first_visit_is_saved_and_gets_a_cookie opts opts "fresh" 50 req 1%positive
              eq_refl eq_refl eq_refl eq_refl eq_refl eq_refl eq_refl)
    as (_ & Htrace & _).
  split; [reflexivity | exact Htrace].
Defined.

Lemma first_visit_is_not_saved_when_saveUninitialized_is_off_witness :
  let opts := options oldSecret liveStore (JBool false) (JBool false) in
  let req := request None (Some ∅) liveStore in
  size freshSession = 4%nat /\
  trace (onSend opts opts (request_after (preValidation opts opts "fresh" 50 req))) = [].
Proof.
  intros opts req.
  assert (size freshSession = 4%nat) as Hsize by reflexivity.
  destruct (first_visit_is_not_saved_when_saveUninitialized_is_off opts opts "fresh" 50 req
              eq_refl eq_refl Hsize eq_refl) as (_ & Htrace & _).
  split; [exact Hsize | exact Htrace].
Defined.

Lemma destroyed_session_stays_destroyed_witness :
  let opts := options oldSecret liveStore (JBool false) (JBool true) in
  let req := request None (Some storedSession) liveStore in
  session req = Some storedSession /\
  completion (destroySession (request_after (destroySession req))) = TypeError /\
  trace (onSend opts opts (request_after (destroySession req))) = [].
Proof.
  intros opts req.
  destruct (destroyed_session_stays_destroyed opts opts req storedSession eq_refl)
    as [Htwice Hpersist].
  split_and!; [reflexivity | by rewrite Htwice | by rewrite Hpersist].
Defined.

Lemma default_options_save_over_https_only_witness :
  let req := request None (Some storedSession) liveStore in
  checkOptions noLength (JStr oldSecret) = None /\
  connection_encrypted req = false /\
  forwarded_https req = false /\
  trace (onSend (ensureDefaults liveStore bareOptions)
           (ensureDefaults liveStore bareOptions) req) = [].
Proof.
  intros req.
  assert (forall c, raw_cookie bareOptions = Some c -> secure c = JUndefined) as Hsecure
    by (intros c [=]).
  destruct (default_options_save_over_https_only noLength
              (JStr : @Secret collaborators -> jsval) liveStore bareOptions
              (register (ensureDefaults liveStore bareOptions)) req
              eq_refl Hsecure eq_refl eq_refl) as (Htrace & _).
  split_and!; [reflexivity | reflexivity | reflexivity | exact Htrace].
Defined.

End MoreRuns.

(** ** The key of the destroy call in the resolve phase *)

Section ExpiredSession.
Context `{Collaborators}.

(** Whenever the resolve phase calls the store's [destroy], it has
    loaded a session under the id that [unsign] returned, and the key
    it passes to [destroy] is the cookie value itself. *)
Lemma resolve_phase_destroys_under_the_cookie_value
    (options options_now : Options) (entropy : Entropy) (now : Z)
    (request : Request) (key : jsval) (form : bool) :
  StoreDestroy key form ∈ trace (preValidation options options_now entropy now request) ->
  exists sessionId id sess,
    cookies request !! cookieName options_now = Some sessionId /\
    cookieSignature_unsign sessionId (secret options) = Some id /\
    get_reply (store options_now) id = (None, Some sess) /\
    StoreGet id (3 <=? get_length (store options))%nat
      ∈ trace (preValidation options options_now entropy now request) /\
    key = JStr sessionId.
Proof.
  destruct (in_path_scope (cookie options) request) eqn:Hscope;
    [|rewrite handleSession_out_of_scope by exact Hscope; simpl;
      intros Hin; by apply elem_of_nil in Hin].
  destruct (cookies request !! cookieName options_now) as [sessionId|] eqn:Hcookie;
    [|rewrite handleSession_no_cookie by auto; simpl;
      intros Hin; by apply elem_of_nil in Hin].
  destruct (decide (sessionId = "")) as [->|Hne];
    [rewrite handleSession_no_cookie by auto; simpl;
     intros Hin; by apply elem_of_nil in Hin|].
  rewrite (handleSession_cookie _ _ _ _ _ sessionId Hscope Hcookie Hne). cbv zeta.
  generalize (3 <=? get_length (store options))%nat,
             (3 <=? destroy_length (store options))%nat.
  intros getForm destroyForm.
  destruct (cookieSignature_unsign sessionId (secret options)) as [id|] eqn:Hunsign;
    [|simpl; intros Hin; apply elem_of_cons in Hin as [Hin|Hin]; [discriminate|];
      by apply elem_of_nil in Hin].
  destruct (get_reply (store options_now) id) as [[err|] [sess|]] eqn:Hget;
    try (walk_handler; intros Hin;
         repeat (apply elem_of_cons in Hin as [Hin|Hin]; [discriminate|]);
         by apply elem_of_nil in Hin).
  destruct (isExpired now sess);
    [|simpl; intros Hin;
      repeat (apply elem_of_cons in Hin as [Hin|Hin]; [discriminate|]);
      by apply elem_of_nil in Hin].
  intros Hin. exists sessionId, id, sess. split_and!; [done | done | done | |].
  - destruct (destroy_reply (store options_now) (JStr sessionId)); simpl;
      apply list_elem_of_further, list_elem_of_here.
  - revert Hin.
    destruct (destroy_reply (store options_now) (JStr sessionId)); simpl; intros Hin;
      (apply elem_of_cons in Hin as [Hin|Hin]; [discriminate|]);
      (apply elem_of_cons in Hin as [Hin|Hin]; [discriminate|]);
      (apply elem_of_cons in Hin as [Hin|Hin]; [by injection Hin as -> _|]);
      by apply elem_of_nil in Hin.
Qed.

End ExpiredSession.

Module ExpiredRuns.
Import Demo.
#[local] Existing Instance collaborators.

(** C5, on an expired session. The cookie verifies to the id [abc],
    the store holds the session [abc] and it has expired. The resolve
    phase loads it with [get] under [abc], does not attach it, and then
    calls the store's [destroy] under the cookie value, signature
    included, a key that differs from [abc] and under which the store
    holds nothing: the call is not for the session that was loaded.
    [destroy] reporting no error, a new session is attached. *)
Theorem expired_session_is_destroyed_under_the_cookie_value :
  let opts := options oldSecret liveStore (JBool true) (JBool true) in
  let req := request (Some oldCookie) (Some ∅) liveStore in
  let out := preValidation opts opts "fresh" 150 req in
  unsign oldCookie oldSecret = Some "abc" /\
  get_reply liveStore "abc" = (None, Some storedSession) /\
  isExpired 150 storedSession = true /\
  trace out =
    [Unsign oldCookie oldSecret; StoreGet "abc" false; StoreDestroy (JStr oldCookie) false] /\
  JStr oldCookie <> JStr "abc" /\
  get_reply liveStore oldCookie = (None, None) /\
  session (request_after out) =
    Some (Session (cookieOpts (JBool true)) oldSecret None "fresh") /\
  completion out = Done.
Proof.
  intros opts req out. split_and!; try reflexivity.
  intros Heq. discriminate Heq.
Qed.

End ExpiredRuns.
